(** * Upload tracking, validation and retry of the SysML v2 agent

    A shallow embedding of [utils/validators.py], [src/file_manager.py] and
    [src/rag_handler.py], and the properties of the upload pipeline, the
    tracking store and the retry wrapper that the specification states;
    then the rest of the file manager, the facade of [src/agent.py] and the
    key check of [config/settings.py], with the properties the code shows.

    Conventions of the embedding:
    - a path is the string pathlib prints for it; [Path(s)] keeps [s];
    - the file system, the remote service and the clock are explicit: every
      call that reaches them is recorded in the trace of the [World];
    - a Python exception is a value of [exn]; every class that occurs here
      derives from [Exception];
    - the only unbounded loop (waiting for remote processing) takes fuel. *)

From Stdlib Require Import ZArith List Ascii String Strings.Byte Lia Bool.
From stdpp Require Import base option gmap strings pretty list fin_maps.
From Equations Require Import Equations.

Local Open Scope string_scope.
Local Open Scope list_scope.
Local Open Scope Z_scope.

(** ** Python values and exceptions *)

(** The scalar values that occur as attributes of remote objects and as
    fields of a tracking entry. *)
Inductive pyval :=
| PNone
| PBool (b : bool)
| PInt (z : Z)
| PStr (s : string).

#[global] Instance pyval_eq_dec : EqDecision pyval.
Proof. solve_decision. Defined.

(** Python truthiness, as used by [or], [and] and [if]. *)
Definition truthy (v : pyval) : bool :=
  match v with
  | PNone => false
  | PBool b => b
  | PInt z => negb (z =? 0)
  | PStr s => negb (String.eqb s "")
  end.

(** [a or b] *)
Definition py_or (a b : pyval) : pyval := if truthy a then a else b.

(** [v in [s1, s2, ...]] for a list of string literals. *)
Definition in_strs (v : pyval) (l : list string) : bool :=
  existsb (fun s => bool_decide (v = PStr s)) l.

(** [str(v)] *)
Definition py_str (v : pyval) : string :=
  match v with
  | PNone => "None"
  | PBool true => "True"
  | PBool false => "False"
  | PInt z => pretty z
  | PStr s => s
  end.

Inductive exn_class :=
| FileNotFoundError
| PermissionError
| OSError
| UnicodeDecodeError
| JSONDecodeError
| AttributeError
| KeyError
| RuntimeError
| ServiceError.

#[global] Instance exn_class_eq_dec : EqDecision exn_class.
Proof. solve_decision. Defined.

(** An exception: its class and its message; [Caused] is one raised
    [from] another exception, which becomes its [__cause__]. *)
Inductive exn :=
| Exn (cls : exn_class) (msg : string)
| Caused (cls : exn_class) (msg : string) (cause : exn).

Definition exn_cls (e : exn) : exn_class :=
  match e with Exn c _ | Caused c _ _ => c end.
Definition exn_msg (e : exn) : string :=
  match e with Exn _ m | Caused _ m _ => m end.
(** [e.__cause__], [None] when there is none. *)
Definition exn_cause (e : exn) : option exn :=
  match e with Exn _ _ => None | Caused _ _ c => Some c end.

(** [raise cls(msg) from cause], where [cause] may be [None]. *)
Definition raise_from (cls : exn_class) (msg : string) (cause : option exn) : exn :=
  match cause with
  | Some c => Caused cls msg c
  | None => Exn cls msg
  end.

(** [isinstance(e, IOError)]: [IOError] is [OSError] and its subclasses. *)
Definition is_IOError (e : exn) : bool :=
  match exn_cls e with
  | FileNotFoundError | PermissionError | OSError => true
  | _ => false
  end.

Definition is_JSONDecodeError (e : exn) : bool :=
  bool_decide (exn_cls e = JSONDecodeError).

(** ** Paths and the file system *)

(** [s.rfind('.')], with [-1] when there is none. *)
Fixpoint rfind_dot (s : string) : Z :=
  match s with
  | EmptyString => -1
  | String c s' =>
      let r := rfind_dot s' in
      if 0 <=? r then r + 1
      else if Ascii.eqb c "."%char then 0 else -1
  end.

(** [s.rfind('/')], with [-1] when there is none. *)
Fixpoint rfind_sep (s : string) : Z :=
  match s with
  | EmptyString => -1
  | String c s' =>
      let r := rfind_sep s' in
      if 0 <=? r then r + 1
      else if Ascii.eqb c "/"%char then 0 else -1
  end.

Definition str_len (s : string) : Z := Z.of_nat (String.length s).

(** [s[i:]] for [0 <= i]. *)
Definition str_from (i : Z) (s : string) : string :=
  String.substring (Z.to_nat i) (String.length s - Z.to_nat i)%nat s.

(** [Path.name]: the final component. *)
Definition path_name (p : string) : string := str_from (rfind_sep p + 1) p.

(** [Path.suffix]: [name[i:]] for [i = name.rfind('.')] when
    [0 < i < len(name) - 1], the empty string otherwise. *)
Definition path_suffix (p : string) : string :=
  let name := path_name p in
  let i := rfind_dot name in
  if (0 <? i) && (i <? str_len name - 1) then str_from i name else "".

(** [str.lower] on the ASCII letters. *)
Definition lower_ascii (c : ascii) : ascii :=
  let n := N_of_ascii c in
  if ((65 <=? n) && (n <=? 90))%N then ascii_of_N (n + 32) else c.

Fixpoint lower (s : string) : string :=
  match s with
  | EmptyString => EmptyString
  | String c s' => String (lower_ascii c) (lower s')
  end.

(** What a path names: a regular file with its bytes (which [open] may
    refuse to read), a directory with the names it lists, or something
    else (a socket, a device). *)
Inductive node :=
| File (readable : bool) (data : list byte)
| Dir (readable : bool) (names : list string)
| Special.

Record FS := {
  fs_lookup : string -> option node;   (* None: the path does not exist *)
  fs_resolve : string -> string        (* str(Path(p).resolve()) *)
}.

Definition path_exists (fs : FS) (p : string) : bool :=
  match fs_lookup fs p with Some _ => true | None => false end.

Definition path_is_file (fs : FS) (p : string) : bool :=
  match fs_lookup fs p with Some (File _ _) => true | _ => false end.

Definition path_is_dir (fs : FS) (p : string) : bool :=
  match fs_lookup fs p with Some (Dir _ _) => true | _ => false end.

(** [path.stat().st_size] of a regular file. *)
Definition st_size (fs : FS) (p : string) : Z :=
  match fs_lookup fs p with
  | Some (File _ data) => Z.of_nat (length data)
  | _ => 0
  end.

(** [os.access(path, os.R_OK)] *)
Definition access_r (fs : FS) (p : string) : bool :=
  match fs_lookup fs p with
  | Some (File r _) | Some (Dir r _) => r
  | Some Special => true
  | None => false
  end.

(** ** utils/validators.py *)

Module validators.

(** The reason a validation failed; [message] gives the text returned. *)
Inductive reason :=
| NotFound
| NotAFile
| WrongType
| Empty
| DirNotFound
| NotADirectory
| Unreadable.

Definition message (r : reason) (p : string) : string :=
  match r with
  | NotFound => "File does not exist: " +:+ p
  | NotAFile => "Path is not a file: " +:+ p
  | WrongType => "File is not a PDF: " +:+ p
  | Empty => "File is empty: " +:+ p
  | DirNotFound => "Directory does not exist: " +:+ p
  | NotADirectory => "Path is not a directory: " +:+ p
  | Unreadable => "Directory is not readable: " +:+ p
  end.

(** [validate_pdf_file]: [inl tt] is [(True, None)], [inr r] is
    [(False, message r file_path)]. *)
Definition validate_pdf_file (fs : FS) (file_path : string) : unit + reason :=
  if negb (path_exists fs file_path) then inr NotFound
  else if negb (path_is_file fs file_path) then inr NotAFile
  else if negb (String.eqb (lower (path_suffix file_path)) ".pdf") then inr WrongType
  else if st_size fs file_path =? 0 then inr Empty
  else inl tt.

Definition validate_directory (fs : FS) (dir_path : string) : unit + reason :=
  if negb (path_exists fs dir_path) then inr DirNotFound
  else if negb (path_is_dir fs dir_path) then inr NotADirectory
  else if negb (access_r fs dir_path) then inr Unreadable
  else inl tt.

End validators.

(** ** The platform: hashing, JSON and the remote service *)

(** A remote object as the client library returns it: its attributes
    and what [str] prints for it. *)
Record obj := {
  attrs : gmap string pyval;
  repr : string
}.

(** [getattr(o, k, d)] *)
Definition getattr (o : obj) (k : string) (d : pyval) : pyval :=
  default d (attrs o !! k).

(** [hasattr(o, k)] *)
Definition hasattr (o : obj) (k : string) : bool :=
  bool_decide (is_Some (attrs o !! k)).

(** One tracking entry, and the tracking store [_tracked_files]. *)
Abbreviation entry := (gmap string pyval).
Abbreviation tracking := (gmap string (gmap string pyval)).

(** What the program does not define itself. [hashlib.sha256] is a
    streaming hasher; [json] parses text into a tracking store or rejects
    it, and prints a store; the remote service has a state of its own and
    every call may raise. *)
Record Platform := {
  hasher : Type;
  sha256 : hasher;
  sha256_update : hasher -> list byte -> hasher;
  hexdigest : hasher -> string;
  json_parse : list byte -> option tracking;
  json_dumps : tracking -> list byte;
  R : Type;
  files_upload : string -> R -> (exn + obj) * R;
  files_get : pyval -> R -> (exn + obj) * R;
  import_file : pyval -> pyval -> R -> (exn + obj) * R;
  has_operations : bool;
  operations_get : pyval -> R -> (exn + obj) * R
}.

Definition block_size : nat := 4096.

(** [iter(lambda: f.read(4096), b"")]: the successive blocks read from the
    file, up to the first empty one. *)
Equations? read_blocks (data : list byte) : list (list byte)
  by wf (length data) lt :=
  read_blocks [] := [];
  read_blocks (b :: data) :=
    take block_size (b :: data) :: read_blocks (drop block_size (b :: data)).
Proof.
  rewrite length_drop.
  assert (Hpos : (0 < block_size)%nat) by apply Nat.lt_0_succ.
  revert Hpos. generalize block_size. intros n Hpos. cbn [length]. lia.
Qed.

(** Strict UTF-8 decoding, as a text-mode [open] does on reading: [true]
    when the bytes are well-formed UTF-8 (Unicode, table 3-7). *)
Definition utf8_cont (b : byte) : bool :=
  ((128 <=? Byte.to_N b) && (Byte.to_N b <=? 191))%N.

Definition in_range (lo hi : N) (b : byte) : bool :=
  ((lo <=? Byte.to_N b) && (Byte.to_N b <=? hi))%N.

Fixpoint utf8_valid (l : list byte) : bool :=
  match l with
  | [] => true
  | b0 :: r =>
      if in_range 0 127 b0 then utf8_valid r
      else if in_range 194 223 b0 then
        match r with
        | b1 :: r1 => utf8_cont b1 && utf8_valid r1
        | _ => false
        end
      else if in_range 224 239 b0 then
        match r with
        | b1 :: b2 :: r2 =>
            (if in_range 224 224 b0 then in_range 160 191 b1
             else if in_range 237 237 b0 then in_range 128 159 b1
             else utf8_cont b1)
            && utf8_cont b2 && utf8_valid r2
        | _ => false
        end
      else if in_range 240 244 b0 then
        match r with
        | b1 :: b2 :: b3 :: r3 =>
            (if in_range 240 240 b0 then in_range 144 191 b1
             else if in_range 244 244 b0 then in_range 128 143 b1
             else utf8_cont b1)
            && utf8_cont b2 && utf8_cont b3 && utf8_valid r3
        | _ => false
        end
      else false
  end.

(** The persisted tracking file. *)
Inductive tracking_file :=
| TFMissing
| TFContent (readable : bool) (data : list byte).

(** ** The world and the monad of effects *)

Inductive level := DEBUG | INFO | WARNING | ERROR.

Inductive remote_call :=
| FilesUpload (file : string)
| FilesGet (name : pyval)
| ImportFile (store_name file_name : pyval)
| OperationsGet (name : pyval).

Inductive event :=
| Call (c : remote_call)
| Sleep (seconds : Z)
| Log (l : level) (msg : string)
| WriteTracking.

Definition is_call (ev : event) : bool :=
  match ev with Call _ => true | _ => false end.

Definition is_upload (ev : event) : bool :=
  match ev with Call (FilesUpload _) => true | _ => false end.

Definition slept (ev : event) : Z :=
  match ev with Sleep n => n | _ => 0 end.

(** Total time slept along a trace. *)
Definition total_sleep (t : list event) : Z := foldr (fun ev acc => slept ev + acc) 0 t.

(** How a computation ends: it returns a value, raises, or has not ended
    when the fuel of the processing wait runs out. *)
Inductive outcome (A : Type) :=
| Ret (a : A)
| Raise (e : exn)
| Diverge.
Arguments Ret {A} a.
Arguments Raise {A} e.
Arguments Diverge {A}.

(** What [upload_file] returns on success. *)
Record upload_result := {
  r_name : pyval;
  r_uri : pyval
}.

(** ** src/file_manager.py *)

Module file_manager.

Section with_platform.
Context (P : Platform).

(** Everything [FileManager] reads or changes: the file system, the state
    of the remote service, [self._tracked_files], [self.file_search_store],
    the persisted tracking file (and whether the cache directory accepts a
    write), the clock's current timestamp, and the trace of effects. *)
Record World := {
  w_fs : FS;
  w_remote : R P;
  w_tracked : tracking;
  w_store : option obj;
  w_disk : tracking_file;
  w_cache_writable : bool;
  w_now : string;
  w_trace : list event
}.

Definition with_trace (w : World) (t : list event) : World :=
  {| w_fs := w_fs w; w_remote := w_remote w; w_tracked := w_tracked w;
     w_store := w_store w; w_disk := w_disk w;
     w_cache_writable := w_cache_writable w; w_now := w_now w; w_trace := t |}.

Definition with_remote (w : World) (r : R P) : World :=
  {| w_fs := w_fs w; w_remote := r; w_tracked := w_tracked w;
     w_store := w_store w; w_disk := w_disk w;
     w_cache_writable := w_cache_writable w; w_now := w_now w;
     w_trace := w_trace w |}.

Definition with_tracked (w : World) (m : tracking) : World :=
  {| w_fs := w_fs w; w_remote := w_remote w; w_tracked := m;
     w_store := w_store w; w_disk := w_disk w;
     w_cache_writable := w_cache_writable w; w_now := w_now w;
     w_trace := w_trace w |}.

Definition with_disk (w : World) (d : tracking_file) : World :=
  {| w_fs := w_fs w; w_remote := w_remote w; w_tracked := w_tracked w;
     w_store := w_store w; w_disk := d;
     w_cache_writable := w_cache_writable w; w_now := w_now w;
     w_trace := w_trace w |}.

(** A computation: from a world to how it ends and the world it leaves. *)
Definition M (A : Type) : Type := World -> outcome A * World.

Definition ret {A} (a : A) : M A := fun w => (Ret a, w).

Definition bind {A B} (m : M A) (f : A -> M B) : M B := fun w =>
  match m w with
  | (Ret a, w') => f a w'
  | (Raise e, w') => (Raise e, w')
  | (Diverge, w') => (Diverge, w')
  end.

Definition raise {A} (e : exn) : M A := fun w => (Raise e, w).

Definition diverge {A} : M A := fun w => (Diverge, w).

(** [try: m except Exception as e: h e] *)
Definition try_except {A} (m : M A) (h : exn -> M A) : M A := fun w =>
  match m w with
  | (Raise e, w') => h e w'
  | r => r
  end.

Definition emit (ev : event) : M unit := fun w =>
  (Ret tt, with_trace w (w_trace w ++ [ev])).

Definition log (l : level) (msg : string) : M unit := emit (Log l msg).

(** [time.sleep(n)] *)
Definition sleep (n : Z) : M unit := emit (Sleep n).

Definition get {A} (f : World -> A) : M A := fun w => (Ret (f w), w).

(** One call of the remote service: recorded, then answered by the
    platform from the service's state. *)
Definition call (c : remote_call) (f : R P -> (exn + obj) * R P) : M obj := fun w =>
  let '(r, s) := f (w_remote w) in
  let w' := with_remote (with_trace w (w_trace w ++ [Call c])) s in
  match r with
  | inl e => (Raise e, w')
  | inr o => (Ret o, w')
  end.

(** [o.k] *)
Definition attr (o : obj) (k : string) : M pyval :=
  match attrs o !! k with
  | Some v => ret v
  | None => raise (Exn AttributeError k)
  end.

End with_platform.

Arguments w_fs {P} w.
Arguments w_remote {P} w.
Arguments w_tracked {P} w.
Arguments w_store {P} w.
Arguments w_disk {P} w.
Arguments w_cache_writable {P} w.
Arguments w_now {P} w.
Arguments w_trace {P} w.
Arguments with_trace {P} w t.
Arguments with_remote {P} w r.
Arguments with_tracked {P} w m.
Arguments with_disk {P} w d.
Arguments ret {P A} a.
Arguments bind {P A B} m f.
Arguments raise {P A} e.
Arguments diverge {P A}.
Arguments try_except {P A} m h.
Arguments emit {P} ev.
Arguments log {P} l msg.
Arguments sleep {P} n.
Arguments get {P A} f.
Arguments call {P} c f.
Arguments attr {P} o k.

Notation "'let!' x ':=' m 'in' k" := (bind m (fun x => k))
  (at level 10, x name, m at level 100, k at level 200).
Notation "'do!' m 'in' k" := (bind m (fun _ => k))
  (at level 10, m at level 100, k at level 200).

Section tracking.
Context (P : Platform).

(** [_load_tracking] *)
Definition _load_tracking : M P tracking :=
  let! disk := get w_disk in
  match disk with
  | TFMissing => ret ∅
  | TFContent readable data =>
      try_except
        (* open(self.tracking_file, 'r'), then json.load(f) *)
        (if negb readable then raise (Exn PermissionError "tracking file")
         else if negb (utf8_valid data) then raise (Exn UnicodeDecodeError "utf-8")
         else match json_parse P data with
              | Some m => ret m
              | None => raise (Exn JSONDecodeError "tracking file")
              end)
        (fun e =>
           if is_JSONDecodeError e || is_IOError e then
             do! log WARNING ("Failed to load tracking file: " +:+ exn_msg e +:+ ". Starting fresh.") in
             ret ∅
           else raise e)
  end.

(** [_save_tracking]: a failed write is an [IOError], logged and dropped. *)
Definition write_tracking : M P unit := fun w =>
  (Ret tt, with_disk (with_trace w (w_trace w ++ [WriteTracking]))
             (TFContent true (json_dumps P (w_tracked w)))).

Definition _save_tracking : M P unit :=
  let! writable := get w_cache_writable in
  if writable then write_tracking
  else log ERROR "Failed to save tracking file".

(** [_compute_file_hash] *)
Definition _compute_file_hash (file_path : string) : M P string :=
  let! fs := get w_fs in
  match fs_lookup fs file_path with
  | None => raise (Exn FileNotFoundError file_path)
  | Some (File false _) => raise (Exn PermissionError file_path)
  | Some (File true data) =>
      ret (hexdigest P (foldl (sha256_update P) (sha256 P) (read_blocks data)))
  | Some (Dir _ _) => raise (Exn OSError file_path)
  | Some Special => raise (Exn OSError file_path)
  end.

(** [_is_file_tracked] *)
Definition _is_file_tracked (file_path : string) : M P bool :=
  let! file_hash := _compute_file_hash file_path in
  let! fs := get w_fs in
  let file_key := fs_resolve fs file_path in
  let! tracked := get w_tracked in
  match tracked !! file_key with
  | Some e =>
      let tracked_hash := default PNone (e !! "hash") in
      if bool_decide (tracked_hash = PStr file_hash) then ret true else ret false
  | None => ret false
  end.

End tracking.

Section upload.
Context (P : Platform).
Import validators.

(** [self._tracked_files[file_key][k]] *)
Definition tracked_field (file_key k : string) : M P pyval :=
  let! tracked := get w_tracked in
  match tracked !! file_key with
  | None => raise (Exn KeyError file_key)
  | Some e =>
      match e !! k with
      | None => raise (Exn KeyError k)
      | Some v => ret v
      end
  end.

(** [self._tracked_files[file_key] = e] *)
Definition set_tracked (file_key : string) (e : entry) : M P unit := fun w =>
  (Ret tt, with_tracked w (<[file_key := e]> (w_tracked w))).

(** [self.client.files.upload(file=str(path))]; with [show_progress] a
    progress bar of the file's size is drawn around the same call. *)
Definition client_upload (path : string) (show_progress : bool) : M P obj :=
  if show_progress then call (FilesUpload path) (files_upload P path)
  else call (FilesUpload path) (files_upload P path).

(** The wait for remote processing:
    [while file_state in ['PROCESSING', 'processing']: ...].
    Each turn of the loop uses one unit of fuel. *)
Fixpoint wait_processed (fuel : nat) (uploaded_file : obj) (file_state : pyval)
  : M P (obj * pyval) :=
  if in_strs file_state ["PROCESSING"; "processing"] then
    match fuel with
    | O => diverge
    | S fuel' =>
        do! sleep 2 in
        let! name := attr uploaded_file "name" in
        let! uploaded_file' := call (FilesGet name) (files_get P name) in
        let file_state' :=
          py_or (getattr uploaded_file' "state" PNone)
                (getattr uploaded_file' "processing_state" PNone) in
        wait_processed fuel' uploaded_file' file_state'
    end
  else ret (uploaded_file, file_state).

Definition max_wait_time : Z := 300.

Definition done_status : list string := ["DONE"; "done"; "SUCCESS"; "success"].
Definition failed_status : list string := ["FAILED"; "failed"; "ERROR"; "error"].

(** What one look at the import operation decides, at the head of the
    polling loop. *)
Inductive poll :=
| PollBreak
| PollFailed (status : pyval)
| PollWait.

Definition check_operation (operation : obj) : poll :=
  if hasattr operation "done" then
    if truthy (getattr operation "done" PNone) then PollBreak else PollWait
  else if hasattr operation "status" then
    let status := getattr operation "status" (PStr "") in
    if in_strs status done_status then PollBreak
    else if in_strs status failed_status then PollFailed status
    else PollWait
  else PollWait.

(** The refresh at the end of a turn: [Some operation'] to go on with the
    refreshed operation, [None] for [break]. *)
Definition refresh_operation (operation_name : pyval) : M P (option obj) :=
  try_except
    (if has_operations P && truthy operation_name then
       let! operation' :=
         call (OperationsGet operation_name) (operations_get P operation_name) in
       ret (Some operation')
     else
       do! log WARNING "Operations API not available, assuming import is in progress" in
       ret None)
    (fun e =>
       do! log DEBUG ("Could not refresh operation status: " +:+ exn_msg e) in
       ret None).

(** How the polling loop is left: by [return None], or with the operation
    last seen. *)
Inductive loop_exit :=
| LoopReturn
| LoopDone (operation : obj).

(** [while wait_time < max_wait_time: ...] *)
Equations? import_loop (operation_name : pyval) (wait_time : Z) (operation : obj)
  : M P loop_exit by wf (Z.to_nat (max_wait_time - wait_time)) lt :=
  import_loop operation_name wait_time operation with decide (wait_time < max_wait_time) := {
    | right _ := ret (LoopDone operation)
    | left Hlt :=
        match check_operation operation with
        | PollBreak => ret (LoopDone operation)
        | PollFailed status =>
            do! log ERROR ("File import failed with status " +:+ py_str status) in
            ret LoopReturn
        | PollWait =>
            do! sleep 2 in
            let! refreshed := refresh_operation operation_name in
            match refreshed with
            | Some operation' => import_loop operation_name (wait_time + 2) operation'
            | None => ret (LoopDone operation)
            end
        end }.
Proof. unfold max_wait_time in *. lia. Qed.

(** Whether the upload goes on after the import block. *)
Inductive import_result :=
| ImportReturn
| ImportGoOn.

(** The import block of [upload_file], with its own [try]. *)
Definition import_into_store (store uploaded_file : obj) : M P import_result :=
  try_except
    (do! log INFO "Importing file into File Search Store..." in
     let! store_name := attr store "name" in
     let! file_name := attr uploaded_file "name" in
     let! operation :=
       call (ImportFile store_name file_name) (import_file P store_name file_name) in
     do! log INFO "Waiting for file import to complete..." in
     let operation_name :=
       py_or (getattr operation "name" PNone) (PStr (repr operation)) in
     let! exit := import_loop operation_name 0 operation in
     match exit with
     | LoopReturn => ret ImportReturn
     | LoopDone operation =>
         if hasattr operation "error" && truthy (getattr operation "error" PNone) then
           do! log ERROR "File import failed" in
           ret ImportReturn
         else if hasattr operation "status"
                 && in_strs (getattr operation "status" (PStr "")) failed_status then
           do! log ERROR "File import failed with status" in
           ret ImportReturn
         else
           do! log INFO "File import operation completed successfully" in
           do! log INFO "File successfully imported into File Search Store" in
           ret ImportGoOn
     end)
    (fun e =>
       do! log WARNING ("Failed to import file into store: " +:+ exn_msg e
                        +:+ ". File uploaded but may not be searchable.") in
       ret ImportGoOn).

(** The tracking entry written for an upload. *)
Definition new_entry (file_name file_uri : pyval) (file_hash now path : string)
    (store_name : pyval) : entry :=
  <["name" := file_name]> (<["uri" := file_uri]> (<["hash" := PStr file_hash]>
  (<["upload_date" := PStr now]> (<["original_path" := PStr path]>
  (<["store_name" := store_name]> ∅))))).

(** [upload_file], from "Track the file" on. *)
Definition track_file (path : string) (uploaded_file : obj) : M P (option upload_result) :=
  let! file_hash := _compute_file_hash P path in
  let! fs := get w_fs in
  let file_key := fs_resolve fs path in
  let file_name :=
    py_or (getattr uploaded_file "name" PNone) (PStr (repr uploaded_file)) in
  let file_uri :=
    py_or (py_or (getattr uploaded_file "uri" PNone)
                 (getattr uploaded_file "file_uri" PNone)) file_name in
  let! now := get w_now in
  let! store := get w_store in
  let! store_name :=
    match store with
    | Some s => attr s "name"
    | None => ret PNone
    end in
  do! set_tracked file_key (new_entry file_name file_uri file_hash now path store_name) in
  do! _save_tracking P in
  do! log INFO ("Successfully uploaded: " +:+ path_name path) in
  ret (Some {| r_name := file_name; r_uri := file_uri |}).

(** The body of the [try] of [upload_file] up to the end of remote
    processing: the upload and the wait, giving the file handle and the
    state it was last seen in. *)
Definition upload_and_wait (fuel : nat) (path : string) (show_progress : bool)
  : M P (obj * pyval) :=
  do! log INFO ("Uploading file: " +:+ path_name path) in
  let! uploaded_file := client_upload path show_progress in
  do! log INFO "Waiting for file to be processed..." in
  let file_state :=
    match getattr uploaded_file "state" PNone with
    | PNone => getattr uploaded_file "processing_state" PNone
    | v => v
    end in
  wait_processed fuel uploaded_file file_state.

(** The body of the [try] from "Check for failure" on: the import into the
    store, if there is one, and the recording of the upload. *)
Definition conclude_upload (path : string) (uploaded_file : obj) (file_state : pyval)
  : M P (option upload_result) :=
  if in_strs file_state ["FAILED"; "failed"] then
    do! log ERROR "File processing failed" in
    ret None
  else
    let! store := get w_store in
    let! imported :=
      match store with
      | Some s => import_into_store s uploaded_file
      | None => ret ImportGoOn
      end in
    match imported with
    | ImportReturn => ret None
    | ImportGoOn => track_file path uploaded_file
    end.

(** The body of the [try] of [upload_file]. *)
Definition upload_body (fuel : nat) (path : string) (show_progress : bool)
  : M P (option upload_result) :=
  let! processed := upload_and_wait fuel path show_progress in
  conclude_upload path (fst processed) (snd processed).

(** [upload_file] *)
Definition upload_file (fuel : nat) (file_path : string) (show_progress : bool)
  : M P (option upload_result) :=
  let path := file_path in
  let! fs := get w_fs in
  match validate_pdf_file fs path with
  | inr r =>
      do! log ERROR (message r file_path) in
      ret None
  | inl _ =>
      let! tracked := _is_file_tracked P path in
      if tracked then
        do! log INFO ("File already uploaded: " +:+ path_name path) in
        let file_key := fs_resolve fs path in
        let! name := tracked_field file_key "name" in
        let! uri := tracked_field file_key "uri" in
        ret (Some {| r_name := name; r_uri := uri |})
      else
        try_except (upload_body fuel path show_progress)
          (fun e =>
             do! log ERROR ("Failed to upload file " +:+ path_name path +:+ ": "
                            +:+ exn_msg e) in
             ret None)
  end.

(** [s.endswith(t)] *)
Definition endswith (s t : string) : bool :=
  (String.length t <=? String.length s)%nat
  && String.eqb (str_from (str_len s - str_len t) s) t.

(** [path / name] *)
Definition joinpath (path name : string) : string := path +:+ "/" +:+ name.

(** [list(path.glob("*.pdf"))]: the entries of the directory itself whose
    name matches, compared as POSIX does (case matters). *)
Definition glob_pdf (fs : FS) (path : string) : list string :=
  match fs_lookup fs path with
  | Some (Dir _ names) =>
      map (joinpath path) (List.filter (fun n => endswith n ".pdf") names)
  | _ => []
  end.

(** [for pdf_file in pdf_files: ...], with [uploaded_files] so far. *)
Fixpoint upload_each (fuel : nat) (show_progress : bool) (pdf_files : list string)
    (uploaded_files : list upload_result) : M P (list upload_result) :=
  match pdf_files with
  | [] => ret uploaded_files
  | pdf_file :: rest =>
      let! result := upload_file fuel pdf_file show_progress in
      upload_each fuel show_progress rest
        (match result with
         | Some r => (uploaded_files ++ [r])%list
         | None => uploaded_files
         end)
  end.

(** [upload_directory] *)
Definition upload_directory (fuel : nat) (directory_path : string)
    (show_progress : bool) : M P (list upload_result) :=
  let path := directory_path in
  let! fs := get w_fs in
  match validate_directory fs path with
  | inr r =>
      do! log ERROR (message r directory_path) in
      ret []
  | inl _ =>
      let pdf_files := glob_pdf fs path in
      match pdf_files with
      | [] =>
          do! log WARNING ("No PDF files found in directory: " +:+ directory_path) in
          ret []
      | _ =>
          do! log INFO ("Found " +:+ pretty (length pdf_files) +:+ " PDF file(s) in "
                        +:+ directory_path) in
          let! uploaded_files := upload_each fuel show_progress pdf_files [] in
          do! log INFO ("Successfully uploaded " +:+ pretty (length uploaded_files)
                        +:+ "/" +:+ pretty (length pdf_files) +:+ " file(s)") in
          ret uploaded_files
      end
  end.

End upload.

(** *** Vocabulary of the properties *)

Section vocabulary.
Context {P : Platform}.

(** [w'] comes after [w]: the file system, the store handle, the clock and
    the writability of the cache are the same, and the trace has grown by
    events that satisfy [Q]. *)
Definition reach (Q : event -> Prop) (w w' : World P) : Prop :=
  w_fs w' = w_fs w /\ w_store w' = w_store w
  /\ w_cache_writable w' = w_cache_writable w /\ w_now w' = w_now w
  /\ exists t, w_trace w' = w_trace w ++ t /\ Forall Q t.

(** The same, and the tracking store and its file are untouched. *)
Definition frame (Q : event -> Prop) (w w' : World P) : Prop :=
  reach Q w w' /\ w_tracked w' = w_tracked w /\ w_disk w' = w_disk w.

Definition reaches {A} (Q : event -> Prop) (m : M P A) : Prop :=
  forall w, reach Q w (m w).2.

Definition frames {A} (Q : event -> Prop) (m : M P A) : Prop :=
  forall w, frame Q w (m w).2.

(** A computation that ends by returning a value or raising. *)
Definition total {A} (m : M P A) : Prop :=
  forall w, (m w).1 <> Diverge.

(** The events of the polling loops: log entries, sleeps of two units and
    the calls that refresh a handle. *)
Definition polling (ev : event) : Prop :=
  match ev with
  | Log _ _ => True
  | Sleep n => n = 2
  | Call (FilesUpload _) => False
  | Call _ => True
  | WriteTracking => False
  end.

(** The events that follow the upload call of a fresh upload: the above
    and the write of the tracking file. *)
Definition quiet (ev : event) : Prop :=
  match ev with
  | Sleep n => n = 2
  | Call (FilesUpload _) => False
  | _ => True
  end.


Definition not_upload (ev : event) : Prop := is_upload ev = false.

(** The number of uploads sent to the remote service along a trace. *)
Definition count_uploads (t : list event) : nat := length (List.filter is_upload t).

(** The entry under [file_key] records the hash [h]. *)
Definition hash_matches (tracked : tracking) (file_key h : string) : bool :=
  match tracked !! file_key with
  | Some e => bool_decide (e !! "hash" = Some (PStr h))
  | None => false
  end.




(** Every upload in the trace is of a path that satisfies [ok]. *)
Definition uploads_only (ok : string -> Prop) (ev : event) : Prop :=
  match ev with
  | Call (FilesUpload p) => ok p
  | _ => True
  end.

(** A batch: [upload_file] is run on each file in turn, each run returns,
    and the results that are not [None] are collected in order. *)
Inductive batch (fuel : nat) (show_progress : bool)
  : World P -> list string -> list upload_result -> World P -> Prop :=
| batch_nil w : batch fuel show_progress w [] [] w
| batch_cons w w1 w' pdf_file rest result results :
    upload_file P fuel pdf_file show_progress w = (Ret result, w1) ->
    batch fuel show_progress w1 rest results w' ->
    batch fuel show_progress w (pdf_file :: rest) (option_list result ++ results) w'.



(** The name and the URI an upload is known by. *)
Definition file_name_of (uploaded_file : obj) : pyval :=
  py_or (getattr uploaded_file "name" PNone) (PStr (repr uploaded_file)).

Definition file_uri_of (uploaded_file : obj) : pyval :=
  py_or (py_or (getattr uploaded_file "uri" PNone)
               (getattr uploaded_file "file_uri" PNone))
        (file_name_of uploaded_file).


End vocabulary.

End file_manager.

(** ** src/rag_handler.py *)

Module rag_handler.

Section with_model.
(** The state behind [ask_question] (the remote model), the type of the
    delay handed to [time.sleep], and [ask_question] itself: from a
    question and an optional store name it returns an answer or raises. *)
Context {S D : Type}.
Context (ask_question : string -> option string -> S -> (exn + string) * S).

Inductive event :=
| Asked (question : string) (file_search_store_name : option string)
| Slept (delay : D)
| Warned (attempt : Z)
| Errored.

Definition failure_message (max_retries : Z) : string :=
  "Failed to get response after " +:+ pretty max_retries +:+ " attempts".

(** [for attempt in attempts: ...] followed by the final [raise], with
    [last_exception], the state of the model and the trace so far. *)
Fixpoint retry_loop (question : string) (file_search_store_name : option string)
    (max_retries : Z) (retry_delay : D) (attempts : list Z)
    (last_exception : option exn) (s : S) (trace : list event)
  : (exn + string) * S * list event :=
  match attempts with
  | [] => (inl (raise_from RuntimeError (failure_message max_retries) last_exception),
           s, trace)
  | attempt :: rest =>
      let trace := (trace ++ [Asked question file_search_store_name])%list in
      match ask_question question file_search_store_name s with
      | (inr answer, s') => (inr answer, s', trace)
      | (inl e, s') =>
          let trace :=
            if attempt <? max_retries - 1
            then (trace ++ [Warned (attempt + 1); Slept retry_delay])%list
            else (trace ++ [Errored])%list in
          retry_loop question file_search_store_name max_retries retry_delay rest
            (Some e) s' trace
      end
  end.

(** [ask_with_retry]; [range(max_retries)] is [seqZ 0 max_retries]. *)
Definition ask_with_retry (question : string) (file_search_store_name : option string)
    (max_retries : Z) (retry_delay : D) (s : S)
  : (exn + string) * S * list event :=
  retry_loop question file_search_store_name max_retries retry_delay
    (seqZ 0 max_retries) None s [].

(** The state of the model before the attempt of index [i], and what the
    attempt gives there. *)
Definition state_before (question : string) (store : option string) (s : S) (i : nat) : S :=
  Nat.iter i (fun s => snd (ask_question question store s)) s.

Definition attempt_result (question : string) (store : option string) (s : S) (i : nat)
  : exn + string :=
  fst (ask_question question store (state_before question store s i)).

Definition count_asked (t : list event) : nat :=
  length (List.filter (fun ev => match ev with Asked _ _ => true | _ => false end) t).

Definition delays (t : list event) : list D :=
  omap (fun ev => match ev with Slept d => Some d | _ => None end) t.

(** What one failed attempt adds to the trace. *)
Definition failed_attempt (question : string) (store : option string)
    (max_retries : Z) (retry_delay : D) (attempt : Z) : list event :=
  Asked question store ::
  (if attempt <? max_retries - 1
   then [Warned (attempt + 1); Slept retry_delay]
   else [Errored]).

(** The cause of the final error after [n] failed attempts, where [last]
    was the last exception before them. *)
Definition last_failure (question : string) (store : option string) (s : S)
    (n : nat) (last : option exn) : option exn :=
  match n with
  | O => last
  | Datatypes.S m =>
      match attempt_result question store s m with
      | inl e => Some e
      | inr _ => last
      end
  end.

End with_model.

End rag_handler.

(** ** Concrete worlds

    Small instances of the platform, the file system and the model, on
    which the definitions above are run. *)

Module examples.

(** A model that fails its first [failures] calls and answers afterwards;
    its state counts the calls. *)
Definition flaky (failures : nat) (question : string) (store : option string) (calls : nat)
  : (exn + string) * nat :=
  if (calls <? failures)%nat
  then (inl (Exn ServiceError ("failure " +:+ pretty calls)), Datatypes.S calls)
  else (inr ("answer to " +:+ question), Datatypes.S calls).

(** A remote object with the given attributes. *)
Definition mk_obj (kind : string) (fields : list (string * pyval)) : obj :=
  {| attrs := list_to_map fields; repr := kind |}.

(** A remote service whose state counts the calls made to it. Uploads are
    processed at once; [imported] is the operation an import returns and
    [refreshed] the operation every later look at it gives. The digest is
    a stand-in for SHA-256: the bytes read, as text. The JSON reader
    rejects everything. *)
Definition service (imported refreshed : obj) : Platform :=
  {| hasher := list byte;
     sha256 := [];
     sha256_update := fun h block => h ++ block;
     hexdigest := string_of_list_byte;
     json_parse := fun _ => None;
     json_dumps := fun _ => [];
     R := nat;
     files_upload := fun file n =>
       (inr (mk_obj "File" [("name", PStr ("files/" +:+ pretty n));
                            ("uri", PStr ("uri://" +:+ pretty n));
                            ("state", PStr "ACTIVE")]),
        Datatypes.S n);
     files_get := fun name n =>
       (inr (mk_obj "File" [("name", name); ("state", PStr "ACTIVE")]), Datatypes.S n);
     import_file := fun store_name file_name n => (inr imported, Datatypes.S n);
     has_operations := true;
     operations_get := fun name n => (inr refreshed, Datatypes.S n) |}.

Definition op_done : obj :=
  mk_obj "Operation" [("name", PStr "operations/1"); ("done", PBool true)].
Definition op_running : obj :=
  mk_obj "Operation" [("name", PStr "operations/1"); ("done", PBool false)].
Definition op_failed : obj :=
  mk_obj "Operation" [("name", PStr "operations/1"); ("status", PStr "FAILED")].

(** The service where an import is done at once, the one where it never
    completes, and the one where it fails on the second look. *)
Definition prompt : Platform := service op_done op_done.
Definition stalled : Platform := service op_running op_running.
Definition failing : Platform := service op_running op_failed.

Definition pdf_bytes : list byte := ["%"; "P"; "D"; "F"]%byte.

(** What the service returns for the first upload. *)
Definition first_file : obj :=
  mk_obj "File" [("name", PStr "files/0"); ("uri", PStr "uri://0");
                 ("state", PStr "ACTIVE")].

Definition first_result : upload_result :=
  {| r_name := PStr "files/0"; r_uri := PStr "uri://0" |}.

Definition store_handle : obj := mk_obj "Store" [("name", PStr "stores/s1")].

(** Three directories: [docs] with three PDF files and a text file,
    [scans] with a PDF file whose suffix is in capitals, and [locked] with
    a PDF file that cannot be read. *)
Definition docs : FS :=
  {| fs_lookup := fun p =>
       if String.eqb p "docs" then
         Some (Dir true ["a.pdf"; "b.pdf"; "notes.txt"; "c.pdf"])
       else if String.eqb p "docs/a.pdf" then Some (File true pdf_bytes)
       else if String.eqb p "docs/b.pdf" then Some (File true (pdf_bytes ++ ["1"%byte]))
       else if String.eqb p "docs/c.pdf" then Some (File true (pdf_bytes ++ ["2"%byte]))
       else if String.eqb p "docs/notes.txt" then Some (File true ["n"%byte])
       else if String.eqb p "scans" then Some (Dir true ["REPORT.PDF"; "a.pdf"])
       else if String.eqb p "scans/REPORT.PDF" then Some (File true (pdf_bytes ++ ["3"%byte]))
       else if String.eqb p "scans/a.pdf" then Some (File true pdf_bytes)
       else if String.eqb p "locked" then Some (Dir true ["locked.pdf"; "a.pdf"])
       else if String.eqb p "locked/locked.pdf" then Some (File false pdf_bytes)
       else if String.eqb p "locked/a.pdf" then Some (File true pdf_bytes)
       else None;
     fs_resolve := fun p => "/home/user/" +:+ p |}.

(** A tracking store that knows [docs/a.pdf] by an older content. *)
Definition stale : tracking :=
  {["/home/user/docs/a.pdf" :=
      file_manager.new_entry (PStr "files/old") (PStr "uri://old") "older"
        "2023-12-31 00:00:00" "docs/a.pdf" (PStr "stores/s1")]}.

(** A manager just constructed over [docs]: nothing tracked, a store
    handle, no tracking file yet. *)
Definition fresh (P : Platform) (r : R P) : file_manager.World P :=
  {| file_manager.w_fs := docs;
     file_manager.w_remote := r;
     file_manager.w_tracked := ∅;
     file_manager.w_store := Some store_handle;
     file_manager.w_disk := TFMissing;
     file_manager.w_cache_writable := true;
     file_manager.w_now := "2024-01-01 00:00:00";
     file_manager.w_trace := [] |}.

End examples.

(** ** The rest of src/file_manager.py *)

Module file_manager_rest.
Import file_manager.

Section with_platform.
Context (P : Platform).

(** One element of the list [list_files] returns. *)
Record file_info := {
  fi_original_path : pyval;
  fi_name : pyval;
  fi_uri : pyval;
  fi_upload_date : pyval
}.

(** The dictionary built for one entry: [file_info.get(k, d)] is the
    value under [k], also when it is [None], and [d] without the key. *)
Definition describe (file_key : string) (e : entry) : file_info :=
  {| fi_original_path := default (PStr file_key) (e !! "original_path");
     fi_name := default (PStr "Unknown") (e !! "name");
     fi_uri := default (PStr "Unknown") (e !! "uri");
     fi_upload_date := default (PStr "Unknown") (e !! "upload_date") |}.

(** [list_files]. The store is a finite map: the list comes in the order
    of [map_to_list], not in the order of insertion of a Python dict. *)
Definition list_files : M P (list file_info) :=
  let! tracked := get w_tracked in
  ret (map (fun kv => describe (fst kv) (snd kv)) (map_to_list tracked)).

(** [self.tracking_file.unlink()]: refused where the cache directory
    cannot be written. *)
Definition unlink_tracking : M P unit := fun w =>
  if w_cache_writable w then (Ret tt, with_disk w TFMissing)
  else (Raise (Exn PermissionError "file_tracking.json"), w).

(** [self._tracked_files = {}] *)
Definition reset_tracked : M P unit := fun w => (Ret tt, with_tracked w ∅).

(** [clear_cache] *)
Definition clear_cache : M P bool :=
  try_except
    (let! disk := get w_disk in
     do! match disk with
         | TFMissing => ret tt
         | TFContent _ _ => unlink_tracking
         end in
     do! reset_tracked in
     do! log INFO "File tracking cache cleared" in
     ret true)
    (fun e =>
       do! log ERROR ("Failed to clear cache: " +:+ exn_msg e) in
       ret false).

(** [get_file_search_store_name] *)
Definition get_file_search_store_name : M P pyval :=
  let! store := get w_store in
  match store with
  | Some s => attr s "name"
  | None => ret PNone
  end.

(** [get_file_uris]: the values under ['uri'] that are truthy. *)
Definition get_file_uris : M P (list pyval) :=
  let! tracked := get w_tracked in
  ret (omap (fun kv =>
               let uri := default PNone (snd kv !! "uri") in
               if truthy uri then Some uri else None)
         (map_to_list tracked)).

End with_platform.

End file_manager_rest.

(** [_initialize_file_search_store], on its own state: the remote
    service, [self.file_search_store] and the calls and log entries made. *)
Module store_init.

(** The store surface of the client: [list] and [get] may be missing from
    the SDK in use; every call may raise. *)
Record StoreService (R : Type) := {
  has_list : bool;
  stores_list : R -> (exn + list obj) * R;
  stores_create : string -> R -> (exn + obj) * R;
  has_get : bool;
  stores_get : string -> R -> (exn + obj) * R
}.
Arguments has_list {R} s.
Arguments stores_list {R} s r.
Arguments stores_create {R} s display_name r.
Arguments has_get {R} s.
Arguments stores_get {R} s name r.

Inductive event :=
| Listed
| Created (display_name : string)
| Got (name : string)
| Logged (l : level) (msg : string).

(** [needle in hay] *)
Fixpoint contains (needle hay : string) : bool :=
  String.prefix needle hay
  || match hay with
     | EmptyString => false
     | String _ hay' => contains needle hay'
     end.

Section with_service.
Context {R : Type} (svc : StoreService R).

Record state := {
  remote : R;
  store : option obj;
  trace : list event
}.

Definition I (A : Type) : Type := state -> (exn + A) * state.

Definition ret {A} (a : A) : I A := fun st => (inr a, st).

Definition bind {A B} (m : I A) (f : A -> I B) : I B := fun st =>
  match m st with
  | (inr a, st') => f a st'
  | (inl e, st') => (inl e, st')
  end.

Definition raise {A} (e : exn) : I A := fun st => (inl e, st).

Definition try_except {A} (m : I A) (h : exn -> I A) : I A := fun st =>
  match m st with
  | (inl e, st') => h e st'
  | r => r
  end.

Definition emit (ev : event) : I unit := fun st =>
  (inr tt, {| remote := remote st; store := store st; trace := trace st ++ [ev] |}).

Definition log (l : level) (msg : string) : I unit := emit (Logged l msg).

(** [self.file_search_store = s] *)
Definition set_store (s : option obj) : I unit := fun st =>
  (inr tt, {| remote := remote st; store := s; trace := trace st |}).

Definition call {A} (ev : event) (f : R -> (exn + A) * R) : I A := fun st =>
  let '(r, s) := f (remote st) in
  (r, {| remote := s; store := store st; trace := trace st ++ [ev] |}).

(** [o.k] *)
Definition attr (o : obj) (k : string) : I pyval :=
  match attrs o !! k with
  | Some v => ret v
  | None => raise (Exn AttributeError k)
  end.

Notation "'let!' x ':=' m 'in' k" := (bind m (fun x => k))
  (at level 10, x name, m at level 100, k at level 200).
Notation "'do!' m 'in' k" := (bind m (fun _ => k))
  (at level 10, m at level 100, k at level 200).

Definition matches_display_name (store_name : string) (s : obj) : bool :=
  hasattr s "display_name"
  && bool_decide (getattr s "display_name" PNone = PStr store_name).

Definition matches_name (store_name : string) (s : obj) : bool :=
  hasattr s "name" && contains store_name (py_str (getattr s "name" PNone)).

(** [for store in stores: ...]; [true] when the loop ends by [return]. *)
Fixpoint scan_stores (store_name : string) (stores : list obj) : I bool :=
  match stores with
  | [] => ret false
  | s :: rest =>
      if matches_display_name store_name s then
        do! set_store (Some s) in
        let! name := attr s "name" in
        do! log INFO ("Using existing File Search Store: " +:+ store_name
                      +:+ " (name: " +:+ py_str name +:+ ")") in
        ret true
      else if matches_name store_name s then
        do! set_store (Some s) in
        let! name := attr s "name" in
        do! log INFO ("Using existing File Search Store: " +:+ store_name
                      +:+ " (name: " +:+ py_str name +:+ ")") in
        ret true
      else scan_stores store_name rest
  end.

(** The first inner [try]: the search among the stores listed. *)
Definition find_existing (store_name : string) : I bool :=
  try_except
    (if has_list svc then
       let! stores := call Listed (stores_list svc) in
       scan_stores store_name stores
     else ret false)
    (fun e =>
       do! log DEBUG ("Could not list existing stores: " +:+ exn_msg e
                      +:+ ". Will create new store if needed.") in
       ret false).

(** The second inner [try]: create, and failing that, get. *)
Definition create_or_get (store_name : string) : I unit :=
  try_except
    (do! log INFO ("Creating File Search Store: " +:+ store_name) in
     let! s := call (Created store_name) (stores_create svc store_name) in
     do! set_store (Some s) in
     let! name := attr s "name" in
     log INFO ("File Search Store created/accessed: " +:+ py_str name))
    (fun create_error =>
       do! log WARNING ("Could not create store (may already exist): "
                        +:+ exn_msg create_error) in
       try_except
         (if has_get svc then
            let! s := call (Got store_name) (stores_get svc store_name) in
            do! set_store (Some s) in
            log INFO ("Retrieved existing File Search Store: " +:+ store_name)
          else raise create_error)
         (fun e =>
            do! log ERROR ("Failed to create or retrieve File Search Store: "
                           +:+ exn_msg create_error) in
            raise e)).

(** [_initialize_file_search_store] *)
Definition _initialize_file_search_store (store_name : string) : I unit :=
  try_except
    (let! found := find_existing store_name in
     if found then ret tt else create_or_get store_name)
    (fun e =>
       do! log ERROR ("Failed to initialize File Search Store: " +:+ exn_msg e) in
       do! log WARNING "File Search Store initialization failed. Continuing without store." in
       set_store None).

(** The stores among which a search finds nothing. *)
Definition no_match (store_name : string) (stores : list obj) : Prop :=
  Forall (fun s => matches_display_name store_name s = false
                   /\ matches_name store_name s = false) stores.

End with_service.

Arguments remote {R} s.
Arguments store {R} s.
Arguments trace {R} s.

End store_init.

(** ** config/settings.py *)

Module settings.

(** What a reading of the environment gives: a value, or the [ValueError]
    raised with its message. *)
Inductive result (A : Type) :=
| Ok (a : A)
| ValueError (msg : string).
Arguments Ok {A} a.
Arguments ValueError {A} msg.

(** [os.getenv(key, default)] inside [_get_env] *)
Definition _get_env (env : gmap string string) (key : string) (default : option string)
  : option string :=
  match env !! key with
  | Some v => Some v
  | None => default
  end.

(** [_get_required_env]: [if not value] holds of an unset variable and of
    an empty one. *)
Definition _get_required_env (env : gmap string string) (key : string) : result string :=
  match env !! key with
  | Some v =>
      if String.eqb v "" then
        ValueError ("Required environment variable '" +:+ key +:+ "' is not set. "
                    +:+ "Please set it in your .env file or environment.")
      else Ok v
  | None =>
      ValueError ("Required environment variable '" +:+ key +:+ "' is not set. "
                  +:+ "Please set it in your .env file or environment.")
  end.

(** [Settings.validate], on the key it looks at. *)
Definition validate (gemini_api_key : string) : bool * option string :=
  if String.eqb gemini_api_key "" then (false, Some "GEMINI_API_KEY is not set")
  else if (String.length gemini_api_key <? 10)%nat then
    (false, Some "GEMINI_API_KEY appears to be invalid (too short)")
  else (true, None).

End settings.

(** ** src/agent.py *)

Module agent.
Import file_manager.

(** [SysMLAgent.__init__] up to "Initialize components": the key the
    components are given, or the [ValueError] of the configuration check.
    [settings_key] is [settings.gemini_api_key]. *)
Definition configure (api_key : option string) (settings_key : string)
  : settings.result string :=
  let chosen :=
    match api_key with
    | Some k => if String.eqb k "" then settings_key else k
    | None => settings_key
    end in
  match settings.validate settings_key with
  | (true, _) => settings.Ok chosen
  | (false, error_msg) =>
      settings.ValueError ("Configuration error: " +:+ default "None" error_msg)
  end.

Section with_platform.
Context (P : Platform).

(** The facade over the file manager: each method hands the call on and
    turns an exception into the value of a failure. *)
Definition upload_file (fuel : nat) (file_path : string) (show_progress : bool)
  : M P (option upload_result) :=
  try_except (file_manager.upload_file P fuel file_path show_progress)
    (fun e =>
       do! log ERROR ("Error uploading file: " +:+ exn_msg e) in
       ret None).

Definition upload_directory (fuel : nat) (directory_path : string) (show_progress : bool)
  : M P (list upload_result) :=
  try_except (file_manager.upload_directory P fuel directory_path show_progress)
    (fun e =>
       do! log ERROR ("Error uploading directory: " +:+ exn_msg e) in
       ret []).

Definition list_files : M P (list file_manager_rest.file_info) :=
  try_except (file_manager_rest.list_files P)
    (fun e =>
       do! log ERROR ("Error listing files: " +:+ exn_msg e) in
       ret []).

Definition clear_cache : M P bool :=
  try_except (file_manager_rest.clear_cache P)
    (fun e =>
       do! log ERROR ("Error clearing cache: " +:+ exn_msg e) in
       ret false).

(** [get_file_count]: [len(self.file_manager.list_files())], with no
    [try] of its own. *)
Definition get_file_count : M P Z :=
  let! files := file_manager_rest.list_files P in
  ret (Z.of_nat (length files)).

End with_platform.

Section asking.
(** The model behind the RAG handler, as in [rag_handler]; [default_delay]
    is the [retry_delay=2.0] that [ask_with_retry] falls back on. *)
Context {S D : Type}.
Context (ask_question : string -> option string -> S -> (exn + string) * S).
Context (default_delay : D).

Inductive event :=
| Rag (ev : @rag_handler.event D)
| NoStoreWarned
| AnswerErrored (msg : string).

Definition error_answer (e : exn) : string :=
  "Error: Failed to generate response. " +:+ exn_msg e.

(** [ask_question] of the agent. [store_name] is what
    [get_file_search_store_name] gave: a name, [None], or its exception. *)
Definition ask (store_name : exn + option string) (question : string)
    (use_retry : bool) (max_retries : Z) (s : S) : string * S * list event :=
  match store_name with
  | inl e => (error_answer e, s, [AnswerErrored (exn_msg e)])
  | inr name =>
      let warned :=
        match name with
        | None | Some "" => [NoStoreWarned]
        | Some _ => []
        end in
      let '(r, s', t) :=
        if use_retry then
          rag_handler.ask_with_retry ask_question question name max_retries default_delay s
        else
          let '(r, s') := ask_question question name s in
          (r, s', [rag_handler.Asked question name]) in
      match r with
      | inr answer => (answer, s', warned ++ map Rag t)
      | inl e => (error_answer e, s', warned ++ map Rag t ++ [AnswerErrored (exn_msg e)])
      end
  end.

(** The number of times the model was asked along a trace. *)
Definition asked (t : list event) : nat :=
  length (List.filter
            (fun ev => match ev with Rag (rag_handler.Asked _ _) => true | _ => false end)
            t).

End asking.

End agent.

(** ** More concrete worlds *)

Module more_examples.
Import examples.

(** A service on which processing never ends: every look at an uploaded
    file finds it in the state [PROCESSING]. *)
Definition stuck : Platform :=
  {| hasher := list byte;
     sha256 := [];
     sha256_update := fun h block => h ++ block;
     hexdigest := string_of_list_byte;
     json_parse := fun _ => None;
     json_dumps := fun _ => [];
     R := nat;
     files_upload := fun file n =>
       (inr (mk_obj "File" [("name", PStr "files/0"); ("state", PStr "PROCESSING")]),
        Datatypes.S n);
     files_get := fun name n =>
       (inr (mk_obj "File" [("name", name); ("state", PStr "PROCESSING")]), Datatypes.S n);
     import_file := fun store_name file_name n => (inr op_done, Datatypes.S n);
     has_operations := true;
     operations_get := fun name n => (inr op_done, Datatypes.S n) |}.

(** A service that refuses every import. *)
Definition no_import : Platform :=
  {| hasher := list byte;
     sha256 := [];
     sha256_update := fun h block => h ++ block;
     hexdigest := string_of_list_byte;
     json_parse := fun _ => None;
     json_dumps := fun _ => [];
     R := nat;
     files_upload := fun file n => (inr first_file, Datatypes.S n);
     files_get := fun name n => (inr first_file, Datatypes.S n);
     import_file := fun store_name file_name n =>
       (inl (Exn ServiceError "import refused"), Datatypes.S n);
     has_operations := true;
     operations_get := fun name n => (inr op_done, Datatypes.S n) |}.

(** A service whose processing ends in failure. *)
Definition rejecting : Platform :=
  {| hasher := list byte;
     sha256 := [];
     sha256_update := fun h block => h ++ block;
     hexdigest := string_of_list_byte;
     json_parse := fun _ => None;
     json_dumps := fun _ => [];
     R := nat;
     files_upload := fun file n =>
       (inr (mk_obj "File" [("name", PStr "files/0"); ("state", PStr "FAILED")]),
        Datatypes.S n);
     files_get := fun name n => (inr first_file, Datatypes.S n);
     import_file := fun store_name file_name n => (inr op_done, Datatypes.S n);
     has_operations := true;
     operations_get := fun name n => (inr op_done, Datatypes.S n) |}.

(** A manager without a store handle. *)
Definition storeless (P : Platform) (r : R P) : file_manager.World P :=
  {| file_manager.w_fs := docs;
     file_manager.w_remote := r;
     file_manager.w_tracked := ∅;
     file_manager.w_store := None;
     file_manager.w_disk := TFMissing;
     file_manager.w_cache_writable := true;
     file_manager.w_now := "2024-01-01 00:00:00";
     file_manager.w_trace := [] |}.

(** Two stores on the remote side, the second with the configured display
    name. *)
Definition other_store : obj :=
  mk_obj "Store" [("name", PStr "stores/s0"); ("display_name", PStr "other")].
Definition our_store : obj :=
  mk_obj "Store" [("name", PStr "stores/s1"); ("display_name", PStr "sysml")].

Definition listing : store_init.StoreService nat :=
  {| store_init.has_list := true;
     store_init.stores_list := fun n => (inr [other_store; our_store], Datatypes.S n);
     store_init.stores_create := fun name n => (inr our_store, Datatypes.S n);
     store_init.has_get := true;
     store_init.stores_get := fun name n => (inr our_store, Datatypes.S n) |}.

(** A service that can neither list nor get, and refuses to create. *)
Definition closed : store_init.StoreService nat :=
  {| store_init.has_list := false;
     store_init.stores_list := fun n => (inr [], n);
     store_init.stores_create := fun name n =>
       (inl (Exn ServiceError "quota"), Datatypes.S n);
     store_init.has_get := false;
     store_init.stores_get := fun name n => (inr our_store, n) |}.

Definition blank : store_init.state (R:=nat) :=
  {| store_init.remote := 0%nat; store_init.store := None; store_init.trace := [] |}.

End more_examples.

(** ** Further vocabulary of the properties *)

Module more_vocabulary.
Import file_manager.

(** The state [upload_file] first reads off an uploaded file. *)
Definition initial_state (uploaded_file : obj) : pyval :=
  match getattr uploaded_file "state" PNone with
  | PNone => getattr uploaded_file "processing_state" PNone
  | v => v
  end.

(** The state read off a file on each later look. *)
Definition polled_state (uploaded_file : obj) : pyval :=
  py_or (getattr uploaded_file "state" PNone)
        (getattr uploaded_file "processing_state" PNone).

Definition processing (st : pyval) : bool := in_strs st ["PROCESSING"; "processing"].

(** The events that reach neither the remote service nor the clock. *)
Definition local (ev : event) : Prop :=
  match ev with
  | Log _ _ | WriteTracking => True
  | _ => False
  end.


End more_vocabulary.

Module echo_example.
Import examples.


(** A directory whose second PDF file cannot be read. *)
Definition shelf : FS :=
  {| fs_lookup := fun p =>
       if String.eqb p "shelf" then Some (Dir true ["a.pdf"; "locked.pdf"])
       else if String.eqb p "shelf/a.pdf" then Some (File true pdf_bytes)
       else if String.eqb p "shelf/locked.pdf" then Some (File false pdf_bytes)
       else None;
     fs_resolve := fun p => "/home/user/" +:+ p |}.

Definition on_shelf (P : Platform) (r : R P) : file_manager.World P :=
  {| file_manager.w_fs := shelf;
     file_manager.w_remote := r;
     file_manager.w_tracked := ∅;
     file_manager.w_store := Some store_handle;
     file_manager.w_disk := TFMissing;
     file_manager.w_cache_writable := true;
     file_manager.w_now := "2024-01-01 00:00:00";
     file_manager.w_trace := [] |}.

End echo_example.

(** * Properties *)

(** ** The validator *)

Module validator_facts.
Import validators.


(** The same for a directory: the reasons in the order of the checks. *)
Lemma validate_directory_ok (fs : FS) (p : string) :
  validate_directory fs p = inl tt <->
  exists names, fs_lookup fs p = Some (Dir true names).
Proof.
  unfold validate_directory, path_exists, path_is_dir, access_r.
  destruct (fs_lookup fs p) as [[r d|r names|]|]; cbn; try destruct r; cbn;
    split; try discriminate; try (intros [? ?]; discriminate); eauto.
Qed.


End validator_facts.

(** ** The monad of the file manager *)

Module monad_facts.
Import file_manager.

Section with_platform.
Context {P : Platform}.

Lemma bind_run {A B} (m : M P A) (f : A -> M P B) w a w1 :
  m w = (Ret a, w1) -> bind m f w = f a w1.
Proof. unfold bind. by intros ->. Qed.

Lemma bind_raise {A B} (m : M P A) (f : A -> M P B) w e w1 :
  m w = (Raise e, w1) -> bind m f w = (Raise e, w1).
Proof. unfold bind. by intros ->. Qed.

Lemma bind_inv {A B} (m : M P A) (f : A -> M P B) w b w' :
  bind m f w = (Ret b, w') ->
  exists a w1, m w = (Ret a, w1) /\ f a w1 = (Ret b, w').
Proof.
  unfold bind. destruct (m w) as [[a|e|] w1]; intros H; try discriminate. eauto.
Qed.

Lemma try_except_inv {A} (m : M P A) (h : exn -> M P A) w a w' :
  try_except m h w = (Ret a, w') ->
  m w = (Ret a, w') \/ exists e w1, m w = (Raise e, w1) /\ h e w1 = (Ret a, w').
Proof.
  unfold try_except. destruct (m w) as [[a0|e|] w1]; intros H; try discriminate; eauto.
Qed.

(** [reach] and [frame] are preorders, monotone in the events allowed. *)
Lemma reach_refl Q (w : World P) : reach Q w w.
Proof. repeat split. exists []. by rewrite app_nil_r. Qed.

Lemma reach_trans Q (w1 w2 w3 : World P) :
  reach Q w1 w2 -> reach Q w2 w3 -> reach Q w1 w3.
Proof.
  intros (? & ? & ? & ? & t1 & Ht1 & HQ1) (? & ? & ? & ? & t2 & Ht2 & HQ2).
  repeat split; try congruence.
  exists (t1 ++ t2). split; [|by apply Forall_app].
  by rewrite Ht2, Ht1, <- app_assoc.
Qed.

Lemma reach_mono (Q Q' : event -> Prop) (w w' : World P) :
  (forall ev, Q ev -> Q' ev) -> reach Q w w' -> reach Q' w w'.
Proof.
  intros HQ (? & ? & ? & ? & t & Ht & Hall). repeat split; try done.
  exists t. split; [done|]. eapply Forall_impl; eauto.
Qed.

Lemma frame_refl Q (w : World P) : frame Q w w.
Proof. split; [apply reach_refl|done]. Qed.

Lemma frame_trans Q (w1 w2 w3 : World P) :
  frame Q w1 w2 -> frame Q w2 w3 -> frame Q w1 w3.
Proof.
  intros (? & ? & ?) (? & ? & ?). split; [by eapply reach_trans|].
  split; congruence.
Qed.

Lemma frame_mono (Q Q' : event -> Prop) (w w' : World P) :
  (forall ev, Q ev -> Q' ev) -> frame Q w w' -> frame Q' w w'.
Proof. intros HQ (? & ? & ?). split; [by eapply reach_mono|done]. Qed.

Lemma frame_reach Q (w w' : World P) : frame Q w w' -> reach Q w w'.
Proof. by intros [? _]. Qed.

(** The combinators. *)
Lemma frames_ret {A} Q (a : A) : frames Q (ret (P:=P) a).
Proof. intros w. apply frame_refl. Qed.

Lemma frames_raise {A} Q e : frames Q (raise (P:=P) (A:=A) e).
Proof. intros w. apply frame_refl. Qed.

Lemma frames_diverge {A} Q : frames Q (diverge (P:=P) (A:=A)).
Proof. intros w. apply frame_refl. Qed.

Lemma frames_get {A} Q (f : World P -> A) : frames Q (get f).
Proof. intros w. apply frame_refl. Qed.

Lemma frames_bind {A B} Q (m : M P A) (f : A -> M P B) :
  frames Q m -> (forall a, frames Q (f a)) -> frames Q (bind m f).
Proof.
  intros Hm Hf w. specialize (Hm w). unfold bind.
  destruct (m w) as [[a|e|] w1]; cbn in *; try done.
  eapply frame_trans; [done|]. apply Hf.
Qed.

Lemma frames_try {A} Q (m : M P A) (h : exn -> M P A) :
  frames Q m -> (forall e, frames Q (h e)) -> frames Q (try_except m h).
Proof.
  intros Hm Hh w. specialize (Hm w). unfold try_except.
  destruct (m w) as [[a|e|] w1]; cbn in *; try done.
  eapply frame_trans; [done|]. apply Hh.
Qed.

Lemma frames_emit (Q : event -> Prop) ev : Q ev -> frames Q (emit (P:=P) ev).
Proof.
  intros HQ w. unfold emit. repeat split. exists [ev]. split; [done|].
  by constructor.
Qed.

Lemma frames_call (Q : event -> Prop) c f : Q (Call c) -> frames Q (call (P:=P) c f).
Proof.
  intros HQ w. unfold call. destruct (f (w_remote w)) as [[e|o] r]; cbn;
    (repeat split; exists [Call c]; split; [done|by constructor]).
Qed.

Lemma frames_attr Q o k : frames Q (attr (P:=P) o k).
Proof. unfold attr. destruct (attrs o !! k); [apply frames_ret|apply frames_raise]. Qed.

Lemma reaches_bind {A B} Q (m : M P A) (f : A -> M P B) :
  reaches Q m -> (forall a, reaches Q (f a)) -> reaches Q (bind m f).
Proof.
  intros Hm Hf w. specialize (Hm w). unfold bind.
  destruct (m w) as [[a|e|] w1]; cbn in *; try done.
  eapply reach_trans; [done|]. apply Hf.
Qed.

Lemma reaches_try {A} Q (m : M P A) (h : exn -> M P A) :
  reaches Q m -> (forall e, reaches Q (h e)) -> reaches Q (try_except m h).
Proof.
  intros Hm Hh w. specialize (Hm w). unfold try_except.
  destruct (m w) as [[a|e|] w1]; cbn in *; try done.
  eapply reach_trans; [done|]. apply Hh.
Qed.

Lemma frames_reaches {A} Q (m : M P A) : frames Q m -> reaches Q m.
Proof. intros H w. apply frame_reach, H. Qed.

(** Totality through the combinators. *)
Lemma total_bind {A B} (m : M P A) (f : A -> M P B) :
  total m -> (forall a, total (f a)) -> total (bind m f).
Proof.
  intros Hm Hf w. specialize (Hm w). unfold bind.
  destruct (m w) as [[a|e|] w1]; cbn in *; try done. apply Hf.
Qed.

Lemma total_try {A} (m : M P A) (h : exn -> M P A) :
  total m -> (forall e, total (h e)) -> total (try_except m h).
Proof.
  intros Hm Hh w. specialize (Hm w). unfold try_except.
  destruct (m w) as [[a|e|] w1]; cbn in *; try done. apply Hh.
Qed.

Lemma total_ret {A} (a : A) : total (ret (P:=P) a).
Proof. by intros w. Qed.

Lemma total_raise {A} e : total (raise (P:=P) (A:=A) e).
Proof. by intros w. Qed.

Lemma total_get {A} (f : World P -> A) : total (get f).
Proof. by intros w. Qed.

Lemma total_emit ev : total (emit (P:=P) ev).
Proof. by intros w. Qed.

Lemma total_call c f : total (call (P:=P) c f).
Proof. intros w. unfold call. by destruct (f (w_remote w)) as [[e|o] r]. Qed.

Lemma total_attr o k : total (attr (P:=P) o k).
Proof. unfold attr. destruct (attrs o !! k); [apply total_ret|apply total_raise]. Qed.

End with_platform.

Create HintDb fm.

#[export] Hint Resolve frames_ret frames_raise frames_diverge frames_get
  frames_attr total_ret total_raise total_get total_emit total_call total_attr : fm.

End monad_facts.

(** ** The upload pipeline *)

Module file_manager_facts.
Import file_manager validators monad_facts.

Section with_platform.
Context {P : Platform}.

Lemma polling_quiet ev : polling ev -> quiet ev.
Proof. by destruct ev as [[]| | |]. Qed.

Lemma frames_log Q l msg :
  (forall l m, Q (Log l m)) -> frames Q (log (P:=P) l msg).
Proof. intros HQ. by apply frames_emit. Qed.

Lemma frames_polling_log l msg : frames polling (log (P:=P) l msg).
Proof. by apply frames_emit. Qed.

Lemma frames_polling_sleep : frames polling (sleep (P:=P) 2).
Proof. by apply frames_emit. Qed.

(** *** Hashing and the tracking test read the world and leave it alone *)

Lemma compute_file_hash_pure path (w : World P) :
  (_compute_file_hash P path w).2 = w.
Proof.
  unfold _compute_file_hash, bind, get.
  by destruct (fs_lookup (w_fs w) path) as [[[] ?|? ?|]|].
Qed.

Lemma compute_file_hash_lookup path (w w' : World P) :
  fs_lookup (w_fs w) path = fs_lookup (w_fs w') path ->
  (_compute_file_hash P path w).1 = (_compute_file_hash P path w').1.
Proof.
  unfold _compute_file_hash, bind, get. intros ->.
  by destruct (fs_lookup (w_fs w') path) as [[[] ?|? ?|]|].
Qed.

Lemma compute_file_hash_total path : total (_compute_file_hash P path).
Proof.
  intros w. unfold _compute_file_hash, bind, get.
  by destruct (fs_lookup (w_fs w) path) as [[[] ?|? ?|]|].
Qed.

Lemma compute_file_hash_eq path (w : World P) :
  _compute_file_hash P path w = ((_compute_file_hash P path w).1, w).
Proof.
  rewrite <- (compute_file_hash_pure path w) at 3. by destruct (_compute_file_hash P path w).
Qed.

Lemma is_file_tracked_pure path (w : World P) :
  (_is_file_tracked P path w).2 = w.
Proof.
  unfold _is_file_tracked, bind. rewrite compute_file_hash_eq.
  destruct (_compute_file_hash P path w).1; cbn; try done.
  unfold get, ret. destruct (w_tracked w !! _); [|done]. by case_bool_decide.
Qed.

Lemma is_file_tracked_total path : total (_is_file_tracked P path).
Proof.
  intros w. unfold _is_file_tracked, bind. rewrite compute_file_hash_eq.
  pose proof (compute_file_hash_total path w) as Hh.
  destruct (_compute_file_hash P path w).1; cbn; try done.
  unfold get, ret. destruct (w_tracked w !! _); [|done]. by case_bool_decide.
Qed.

(** What [_is_file_tracked] returns once the hash is known. *)
Lemma is_file_tracked_hash path (w : World P) h :
  (_compute_file_hash P path w).1 = Ret h ->
  _is_file_tracked P path w =
    (Ret (hash_matches (w_tracked w) (fs_resolve (w_fs w) path) h), w).
Proof.
  intros Hh. unfold _is_file_tracked, bind. rewrite compute_file_hash_eq, Hh. cbn.
  unfold get, ret, hash_matches.
  destruct (w_tracked w !! fs_resolve (w_fs w) path) as [e|] eqn:He; [|done].
  destruct (e !! "hash") as [v|] eqn:Hv; cbn.
  - case_bool_decide as Hd; subst.
    + by rewrite bool_decide_eq_true_2.
    + rewrite bool_decide_eq_false_2; [done|]. congruence.
  - by rewrite bool_decide_eq_false_2.
Qed.

Lemma hash_matches_true (tracked : tracking) file_key h :
  hash_matches tracked file_key h = true <->
  exists e, tracked !! file_key = Some e /\ e !! "hash" = Some (PStr h).
Proof.
  unfold hash_matches. destruct (tracked !! file_key) as [e|].
  - rewrite bool_decide_eq_true. split; [eauto|]. by intros (? & [= <-] & ?).
  - split; [done|]. by intros (? & ? & ?).
Qed.

(** *** The two polling loops keep to polling *)

Lemma frames_wait_processed fuel : forall uploaded_file file_state,
  frames polling (wait_processed P fuel uploaded_file file_state).
Proof.
  induction fuel as [|fuel IH]; intros uf st; cbn [wait_processed];
    destruct (in_strs st _); auto with fm.
  apply frames_bind; [apply frames_polling_sleep|intros _].
  apply frames_bind; [apply frames_attr|intros name].
  apply frames_bind; [by apply frames_call|intros uf']. apply IH.
Qed.

Lemma frames_refresh_operation name : frames polling (refresh_operation P name).
Proof.
  unfold refresh_operation. apply frames_try.
  - destruct (has_operations P && truthy name).
    + apply frames_bind; [by apply frames_call|auto with fm].
    + apply frames_bind; [apply frames_polling_log|auto with fm].
  - intros e. apply frames_bind; [apply frames_polling_log|auto with fm].
Qed.

Lemma total_refresh_operation name : total (refresh_operation P name).
Proof.
  unfold refresh_operation. apply total_try.
  - destruct (has_operations P && truthy name).
    + apply total_bind; auto with fm.
    + apply total_bind; [apply total_emit|auto with fm].
  - intros e. apply total_bind; [apply total_emit|auto with fm].
Qed.

Lemma frames_import_loop name wait_time operation :
  frames polling (import_loop P name wait_time operation).
Proof.
  funelim (import_loop P name wait_time operation); [|auto with fm].
  destruct (check_operation operation); auto with fm.
  - apply frames_bind; [apply frames_polling_log|auto with fm].
  - apply frames_bind; [apply frames_polling_sleep|intros _].
    apply frames_bind; [apply frames_refresh_operation|intros [op'|]]; auto with fm.
    intros w. by apply (H tt None op' w).
Qed.


Lemma total_import_loop name wait_time operation :
  total (import_loop P name wait_time operation).
Proof.
  funelim (import_loop P name wait_time operation); [|auto with fm].
  destruct (check_operation operation); auto with fm.
  - apply total_bind; [apply total_emit|auto with fm].
  - apply total_bind; [apply total_emit|intros _].
    apply total_bind; [apply total_refresh_operation|intros [op'|]]; auto with fm.
    intros w. by apply (H tt None op' w).
Qed.

(** *** The time the import loop may take *)

Lemma total_sleep_app t1 t2 : total_sleep (t1 ++ t2) = total_sleep t1 + total_sleep t2.
Proof. unfold total_sleep. induction t1 as [|ev t1 IH]; cbn; lia. Qed.













Lemma total_import_into_store store uploaded_file :
  total (import_into_store P store uploaded_file).
Proof.
  unfold import_into_store. apply total_try.
  - apply total_bind; [apply total_emit|intros _].
    apply total_bind; [apply total_attr|intros store_name].
    apply total_bind; [apply total_attr|intros file_name].
    apply total_bind; [apply total_call|intros operation].
    apply total_bind; [apply total_emit|intros _].
    apply total_bind; [apply total_import_loop|intros [|op]]; auto with fm.
    repeat case_match;
      repeat (apply total_bind; [apply total_emit|intros _]); auto with fm.
  - intros e. apply total_bind; [apply total_emit|auto with fm].
Qed.

(** The import block never raises and never hangs: it decides. *)
Lemma import_into_store_decides store uploaded_file (w : World P) :
  (import_into_store P store uploaded_file w).1 = Ret ImportReturn
  \/ (import_into_store P store uploaded_file w).1 = Ret ImportGoOn.
Proof.
  pose proof (total_import_into_store store uploaded_file w) as Htot.
  revert Htot. unfold import_into_store, try_except.
  match goal with |- context [bind ?m ?f w] => destruct (bind m f w) as [[[]|e|] w1] end;
    cbn; auto. by intros [].
Qed.

Lemma frames_import_into_store store uploaded_file :
  frames polling (import_into_store P store uploaded_file).
Proof.
  unfold import_into_store. apply frames_try.
  - apply frames_bind; [apply frames_polling_log|intros _].
    apply frames_bind; [apply frames_attr|intros store_name].
    apply frames_bind; [apply frames_attr|intros file_name].
    apply frames_bind; [by apply frames_call|intros operation].
    apply frames_bind; [apply frames_polling_log|intros _].
    apply frames_bind; [apply frames_import_loop|intros [|op]]; auto with fm.
    repeat case_match;
      repeat (apply frames_bind; [apply frames_polling_log|intros _]); auto with fm.
  - intros e. apply frames_bind; [apply frames_polling_log|auto with fm].
Qed.


(** *** Recording an upload *)

Lemma reaches_quiet_log l msg : reaches quiet (log (P:=P) l msg).
Proof. apply frames_reaches. by apply frames_emit. Qed.

Lemma reaches_save_tracking : reaches quiet (_save_tracking P).
Proof.
  intros w. unfold _save_tracking, bind, get, write_tracking.
  destruct (w_cache_writable w); cbn.
  - repeat split. exists [WriteTracking]. split; [done|]. by repeat constructor.
  - apply reaches_quiet_log.
Qed.

Lemma save_tracking_tracked (w : World P) :
  (_save_tracking P w).1 = Ret tt /\ w_tracked (_save_tracking P w).2 = w_tracked w.
Proof.
  unfold _save_tracking, bind, get, write_tracking. by destruct (w_cache_writable w).
Qed.

Lemma reaches_set_tracked file_key e : reaches quiet (set_tracked P file_key e).
Proof. intros w. repeat split. exists []. by rewrite app_nil_r. Qed.

Lemma reaches_compute_file_hash path : reaches quiet (_compute_file_hash P path).
Proof. intros w. rewrite compute_file_hash_pure. apply reach_refl. Qed.

Lemma reaches_track_file path uploaded_file :
  reaches quiet (track_file P path uploaded_file).
Proof.
  unfold track_file.
  apply reaches_bind; [apply reaches_compute_file_hash|intros h].
  apply reaches_bind; [apply frames_reaches; auto with fm|intros fs].
  apply reaches_bind; [apply frames_reaches; auto with fm|intros now].
  apply reaches_bind; [apply frames_reaches; auto with fm|intros store].
  apply reaches_bind.
  { destruct store; apply frames_reaches; auto with fm. }
  intros store_name.
  apply reaches_bind; [apply reaches_set_tracked|intros _].
  apply reaches_bind; [apply reaches_save_tracking|intros _].
  apply reaches_bind; [apply reaches_quiet_log|intros _].
  apply frames_reaches; auto with fm.
Qed.

Lemma total_track_file path uploaded_file : total (track_file P path uploaded_file).
Proof.
  unfold track_file.
  apply total_bind; [apply compute_file_hash_total|intros h].
  apply total_bind; [auto with fm|intros fs].
  apply total_bind; [auto with fm|intros now].
  apply total_bind; [auto with fm|intros store].
  apply total_bind; [destruct store; auto with fm|intros store_name].
  apply total_bind; [done|intros _].
  apply total_bind; [|intros _].
  { intros w. by rewrite (proj1 (save_tracking_tracked w)). }
  apply total_bind; [apply total_emit|intros _]. auto with fm.
Qed.

(** When [track_file] returns, it returns the name and the URI of the
    upload, and the store holds them under the resolved path together with
    the hash of the file as it is now. *)
Lemma track_file_returns path uploaded_file (w w' : World P) res :
  track_file P path uploaded_file w = (Ret res, w') ->
  exists h store_name,
    (_compute_file_hash P path w).1 = Ret h
    /\ res = Some {| r_name := file_name_of uploaded_file;
                     r_uri := file_uri_of uploaded_file |}
    /\ w_tracked w' =
         <[fs_resolve (w_fs w) path :=
             new_entry (file_name_of uploaded_file) (file_uri_of uploaded_file)
               h (w_now w) path store_name]> (w_tracked w).
Proof.
  unfold track_file. intros H.
  apply bind_inv in H as (h & w1 & Hh & H).
  rewrite compute_file_hash_eq in Hh. injection Hh as Hh <-.
  exists h.
  unfold bind at 1 2 3 in H. cbn in H.
  apply bind_inv in H as (store_name & w2 & Hs & H).
  assert (w2 = w) as ->.
  { destruct (w_store w); [|by injection Hs].
    unfold attr in Hs. destruct (attrs o !! "name"); [by injection Hs|done]. }
  exists store_name. split; [done|].
  unfold bind at 1 in H. cbn in H.
  apply bind_inv in H as ([] & w3 & Hsave & H).
  match type of Hsave with
  | _save_tracking P ?X = _ => pose proof (save_tracking_tracked X) as [_ Htr]
  end.
  rewrite Hsave in Htr. cbn in Htr.
  unfold bind, log, emit, ret in H. cbn in H. injection H as <- <-.
  split; [done|]. cbn. exact Htr.
Qed.

(** *** A fresh upload *)

Lemma client_upload_call path show :
  client_upload P path show = call (FilesUpload path) (files_upload P path).
Proof. by destruct show. Qed.

Lemma call_world c f (w : World P) :
  (call c f w).2 = with_remote (with_trace w (w_trace w ++ [Call c])) (f (w_remote w)).2.
Proof. unfold call. by destruct (f (w_remote w)) as [[e|o] r]. Qed.

(** The upload and the wait leave the tracking store alone; their trace
    starts with the one upload call and goes on with polling. *)
Lemma upload_and_wait_trace fuel path show (w : World P) :
  let w' := (upload_and_wait P fuel path show w).2 in
  w_fs w' = w_fs w /\ w_store w' = w_store w /\ w_now w' = w_now w
  /\ w_cache_writable w' = w_cache_writable w
  /\ w_tracked w' = w_tracked w /\ w_disk w' = w_disk w
  /\ exists t,
       w_trace w' =
         w_trace w ++ Log INFO ("Uploading file: " +:+ path_name path)
                   :: Call (FilesUpload path) :: t
       /\ Forall polling t.
Proof.
  unfold upload_and_wait. erewrite bind_run by reflexivity.
  rewrite client_upload_call.
  match goal with |- context [bind (call ?c ?f) _ ?w1] =>
    pose proof (call_world c f w1) as Hw;
    pose proof (total_call c f w1) as Htot;
    destruct (call c f w1) as [[uf|e|] w2] eqn:Hc
  end; cbn [fst snd] in *; [| |done].
  - erewrite bind_run by exact Hc.
    match goal with |- context [bind (log ?l ?m) ?k w2] =>
      assert (Hrest : frames polling (bind (log l m) k))
    end.
    { apply frames_bind; [apply frames_polling_log|intros _].
      apply frames_wait_processed. }
    destruct (Hrest w2) as ((Hfs & Hst & Hcw & Hnow & t & Ht & Hq) & Htr & Hd).
    cbn zeta. rewrite Hfs, Hst, Hcw, Hnow, Htr, Hd, Ht, Hw. cbn.
    repeat split. exists t. split; [|done]. by rewrite <- !app_assoc.
  - erewrite bind_raise by exact Hc. cbn zeta. rewrite Hw. cbn.
    repeat split. exists []. split; [|done]. by rewrite <- !app_assoc.
Qed.

Lemma reaches_conclude_upload path uploaded_file file_state :
  reaches quiet (conclude_upload P path uploaded_file file_state).
Proof.
  unfold conclude_upload. destruct (in_strs file_state _).
  - apply reaches_bind; [apply reaches_quiet_log|intros _].
    apply frames_reaches; auto with fm.
  - apply reaches_bind; [apply frames_reaches; auto with fm|intros store].
    apply reaches_bind; [|intros [|]].
    + destruct store; [|apply frames_reaches; auto with fm].
      intros w. eapply reach_mono; [apply polling_quiet|].
      apply frame_reach, frames_import_into_store.
    + apply frames_reaches; auto with fm.
    + apply reaches_track_file.
Qed.

(** When [conclude_upload] returns a result, the result and the new entry
    are those of [track_file]. *)
Lemma conclude_upload_returns path uf st (w w' : World P) r :
  conclude_upload P path uf st w = (Ret (Some r), w') ->
  exists h store_name,
    (_compute_file_hash P path w).1 = Ret h
    /\ r = {| r_name := file_name_of uf; r_uri := file_uri_of uf |}
    /\ w_tracked w' =
         <[fs_resolve (w_fs w) path :=
             new_entry (file_name_of uf) (file_uri_of uf) h (w_now w) path store_name]>
           (w_tracked w).
Proof.
  unfold conclude_upload. intros H. destruct (in_strs st _).
  { apply bind_inv in H as (? & ? & _ & H). discriminate. }
  unfold bind at 1 in H. cbn in H.
  apply bind_inv in H as (imported & w3 & Himp & H).
  assert (Hf3 : frame polling w w3).
  { destruct (w_store w).
    - pose proof (frames_import_into_store o uf w) as Hf. by rewrite Himp in Hf.
    - injection Himp as _ <-. apply frame_refl. }
  destruct imported; [discriminate|].
  destruct Hf3 as ((Hfs & _ & _ & Hnow & _) & Htr & _).
  apply track_file_returns in H as (h & store_name & Hh & [= ->] & Htracked).
  exists h, store_name.
  rewrite Hfs, Hnow, Htr in Htracked. split; [|done].
  rewrite <- Hh. apply compute_file_hash_lookup. by rewrite Hfs.
Qed.

Lemma upload_body_trace fuel path show (w : World P) :
  w_fs (upload_body P fuel path show w).2 = w_fs w
  /\ exists t,
       w_trace (upload_body P fuel path show w).2 =
         w_trace w ++ Log INFO ("Uploading file: " +:+ path_name path)
                   :: Call (FilesUpload path) :: t
       /\ Forall quiet t.
Proof.
  unfold upload_body, bind.
  pose proof (upload_and_wait_trace fuel path show w) as Hw. cbn zeta in Hw.
  destruct (upload_and_wait P fuel path show w) as [[[uf st]|e|] w1]; cbn [fst snd] in *;
    destruct Hw as (Hfs & _ & _ & _ & _ & _ & t & Ht & Hq).
  - destruct (reaches_conclude_upload path uf st w1) as (Hfs' & _ & _ & _ & t' & Ht' & Hq').
    split; [congruence|]. exists (t ++ t'). split.
    + rewrite Ht', Ht. by rewrite <- !app_assoc.
    + apply Forall_app. split; [|done]. eapply Forall_impl; [done|apply polling_quiet].
  - split; [done|]. exists t. split; [done|].
    eapply Forall_impl; [done|apply polling_quiet].
  - split; [done|]. exists t. split; [done|].
    eapply Forall_impl; [done|apply polling_quiet].
Qed.

Lemma upload_body_returns fuel path show (w w' : World P) r :
  upload_body P fuel path show w = (Ret (Some r), w') ->
  exists e h,
    (_compute_file_hash P path w).1 = Ret h
    /\ w_tracked w' !! fs_resolve (w_fs w) path = Some e
    /\ e !! "hash" = Some (PStr h)
    /\ e !! "name" = Some (r_name r)
    /\ e !! "uri" = Some (r_uri r).
Proof.
  unfold upload_body. intros H.
  apply bind_inv in H as ([uf st] & w1 & Hup & H). cbn [fst snd] in H.
  pose proof (upload_and_wait_trace fuel path show w) as Hw. cbn zeta in Hw.
  rewrite Hup in Hw. cbn [snd] in Hw.
  destruct Hw as (Hfs & _ & Hnow & _ & Htr & _).
  apply conclude_upload_returns in H as (h & store_name & Hh & -> & Htracked).
  rewrite Hfs, Htr in Htracked.
  eexists _, h. split.
  { rewrite <- Hh. apply compute_file_hash_lookup. by rewrite Hfs. }
  rewrite Htracked, lookup_insert_eq. split; [done|]. by vm_compute.
Qed.

(** *** The four ways through [upload_file] *)

Lemma validate_pdf_file_lookup (fs fs' : FS) p :
  fs_lookup fs p = fs_lookup fs' p ->
  validate_pdf_file fs p = validate_pdf_file fs' p.
Proof.
  intros H. unfold validate_pdf_file, path_exists, path_is_file, st_size. by rewrite H.
Qed.

Lemma upload_file_invalid fuel path show (w : World P) r :
  validate_pdf_file (w_fs w) path = inr r ->
  upload_file P fuel path show w =
    (Ret None, with_trace w (w_trace w ++ [Log ERROR (message r path)])).
Proof. intros H. unfold upload_file, bind, get. cbn. by rewrite H. Qed.

(** The hash is taken before the [try]: an error of [open] is raised to
    the caller. *)
Lemma upload_file_hash_error fuel path show (w : World P) e :
  validate_pdf_file (w_fs w) path = inl tt ->
  (_compute_file_hash P path w).1 = Raise e ->
  upload_file P fuel path show w = (Raise e, w).
Proof.
  intros Hv Hh. unfold upload_file, bind at 1, get. cbn. rewrite Hv.
  unfold bind at 1, _is_file_tracked, bind at 1.
  by rewrite compute_file_hash_eq, Hh.
Qed.

Lemma upload_file_cached fuel path show (w : World P) h :
  validate_pdf_file (w_fs w) path = inl tt ->
  (_compute_file_hash P path w).1 = Ret h ->
  hash_matches (w_tracked w) (fs_resolve (w_fs w) path) h = true ->
  upload_file P fuel path show w =
    (let! name := tracked_field P (fs_resolve (w_fs w) path) "name" in
     let! uri := tracked_field P (fs_resolve (w_fs w) path) "uri" in
     ret (Some {| r_name := name; r_uri := uri |}))
      (with_trace w (w_trace w ++ [Log INFO ("File already uploaded: " +:+ path_name path)])).
Proof.
  intros Hv Hh Hm. unfold upload_file, bind at 1, get. cbn. rewrite Hv.
  unfold bind at 1. rewrite (is_file_tracked_hash _ _ _ Hh), Hm. reflexivity.
Qed.

Lemma upload_file_fresh fuel path show (w : World P) h :
  validate_pdf_file (w_fs w) path = inl tt ->
  (_compute_file_hash P path w).1 = Ret h ->
  hash_matches (w_tracked w) (fs_resolve (w_fs w) path) h = false ->
  upload_file P fuel path show w =
    try_except (upload_body P fuel path show)
      (fun e =>
         do! log ERROR ("Failed to upload file " +:+ path_name path +:+ ": "
                        +:+ exn_msg e) in
         ret None) w.
Proof.
  intros Hv Hh Hm. unfold upload_file, bind at 1, get. cbn. rewrite Hv.
  unfold bind at 1. rewrite (is_file_tracked_hash _ _ _ Hh), Hm. reflexivity.
Qed.

Lemma quiet_no_uploads t : Forall quiet t -> count_uploads t = 0%nat.
Proof.
  unfold count_uploads. induction 1 as [|ev t Hev _ IH]; [done|].
  cbn. by destruct ev as [[]| | |].
Qed.

(** On the fresh path the trace grows by the upload call and events that
    are not uploads; the file system is the same afterwards. *)
Lemma upload_file_fresh_trace fuel path show (w : World P) h :
  validate_pdf_file (w_fs w) path = inl tt ->
  (_compute_file_hash P path w).1 = Ret h ->
  hash_matches (w_tracked w) (fs_resolve (w_fs w) path) h = false ->
  exists t,
    w_trace (upload_file P fuel path show w).2 =
      w_trace w ++ Log INFO ("Uploading file: " +:+ path_name path)
                :: Call (FilesUpload path) :: t
    /\ Forall quiet t.
Proof.
  intros Hv Hh Hm. rewrite (upload_file_fresh _ _ _ _ _ Hv Hh Hm).
  unfold try_except.
  destruct (upload_body_trace fuel path show w) as (_ & t & Ht & Hq).
  destruct (upload_body P fuel path show w) as [[x|e|] w1]; cbn [snd] in *; eauto.
  unfold bind, log, emit, ret. cbn. rewrite Ht.
  exists (t ++ [Log ERROR ("Failed to upload file " +:+ path_name path +:+ ": "
                           +:+ exn_msg e)]).
  split; [by rewrite <- app_assoc|].
  apply Forall_app. split; [done|]. by repeat constructor.
Qed.

(** What a returned result says about the store afterwards. *)
Lemma upload_file_returns fuel path show (w w' : World P) r :
  upload_file P fuel path show w = (Ret (Some r), w') ->
  exists e h,
    validate_pdf_file (w_fs w) path = inl tt
    /\ (_compute_file_hash P path w).1 = Ret h
    /\ w_tracked w' !! fs_resolve (w_fs w) path = Some e
    /\ e !! "hash" = Some (PStr h)
    /\ e !! "name" = Some (r_name r)
    /\ e !! "uri" = Some (r_uri r).
Proof.
  intros H.
  destruct (validate_pdf_file (w_fs w) path) as [[]|reason] eqn:Hv.
  2:{ rewrite (upload_file_invalid _ _ _ _ _ Hv) in H. discriminate. }
  destruct (_compute_file_hash P path w).1 as [h|e|] eqn:Hh.
  2:{ rewrite (upload_file_hash_error _ _ _ _ _ Hv Hh) in H. discriminate. }
  2:{ by destruct (compute_file_hash_total path w). }
  destruct (hash_matches (w_tracked w) (fs_resolve (w_fs w) path) h) eqn:Hm.
  - rewrite (upload_file_cached _ _ _ _ _ Hv Hh Hm) in H.
    apply hash_matches_true in Hm as (e & He & Hhash).
    unfold bind, tracked_field, get, ret, raise in H. cbn in H. rewrite He in H.
    destruct (e !! "name") as [n|] eqn:Hn; [|discriminate].
    cbn in H. rewrite He in H.
    destruct (e !! "uri") as [u|] eqn:Hu; [|discriminate].
    injection H as <- <-. exists e, h. by cbn.
  - rewrite (upload_file_fresh _ _ _ _ _ Hv Hh Hm) in H.
    apply try_except_inv in H as [H|(e & w1 & _ & H)].
    + apply upload_body_returns in H as (e & h' & Hh' & ?).
      rewrite Hh in Hh'. exists e, h'. split; [done|]. by split.
    + unfold bind, log, emit, ret in H. discriminate.
Qed.

(** C1. [_is_file_tracked] returns [True] exactly when the store has an
    entry under the resolved path whose recorded hash is the hash of the
    file as it is now, and it changes nothing. When the file is valid and the
    recorded hash differs from the current one (or there is no entry),
    it returns [False] and [upload_file] sends the file to the remote
    service again instead of answering from the store. *)
Theorem is_file_tracked_spec path (w : World P) :
  ((_is_file_tracked P path w).1 = Ret true <->
     exists e h,
       w_tracked w !! fs_resolve (w_fs w) path = Some e
       /\ (_compute_file_hash P path w).1 = Ret h
       /\ e !! "hash" = Some (PStr h))
  /\ (_is_file_tracked P path w).2 = w
  /\ (forall h,
        (_compute_file_hash P path w).1 = Ret h ->
        (forall e, w_tracked w !! fs_resolve (w_fs w) path = Some e ->
                   e !! "hash" <> Some (PStr h)) ->
        (_is_file_tracked P path w).1 = Ret false
        /\ (validate_pdf_file (w_fs w) path = inl tt ->
            forall fuel show, exists t,
              w_trace (upload_file P fuel path show w).2 =
                w_trace w ++ Log INFO ("Uploading file: " +:+ path_name path)
                          :: Call (FilesUpload path) :: t
              /\ count_uploads t = 0%nat)).
Proof.
  split; [|split].
  - split.
    + intros H.
      destruct (_compute_file_hash P path w).1 as [h|e|] eqn:Hh.
      * rewrite (is_file_tracked_hash _ _ _ Hh) in H. cbn in H. injection H as H.
        apply hash_matches_true in H as (e & ? & ?). by exists e, h.
      * unfold _is_file_tracked, bind in H.
        rewrite compute_file_hash_eq, Hh in H. discriminate.
      * by destruct (compute_file_hash_total path w).
    + intros (e & h & He & Hh & Hhash).
      rewrite (is_file_tracked_hash _ _ _ Hh). cbn. f_equal.
      apply hash_matches_true. eauto.
  - apply is_file_tracked_pure.
  - intros h Hh Hdiff.
    assert (Hm : hash_matches (w_tracked w) (fs_resolve (w_fs w) path) h = false).
    { apply not_true_is_false. intros (e & He & Hhash)%hash_matches_true.
      by apply (Hdiff e). }
    split; [by rewrite (is_file_tracked_hash _ _ _ Hh), Hm|].
    intros Hv fuel show.
    destruct (upload_file_fresh_trace fuel path show w h Hv Hh Hm) as (t & Ht & Hq).
    exists t. split; [done|]. by apply quiet_no_uploads.
Qed.

(** *** The import: failure, and the ceiling *)







Lemma upload_file_concluded fuel path show (w w1 w' : World P) h uf st x :
  validate_pdf_file (w_fs w) path = inl tt ->
  (_compute_file_hash P path w).1 = Ret h ->
  hash_matches (w_tracked w) (fs_resolve (w_fs w) path) h = false ->
  upload_and_wait P fuel path show w = (Ret (uf, st), w1) ->
  conclude_upload P path uf st w1 = (Ret x, w') ->
  upload_file P fuel path show w = (Ret x, w').
Proof.
  intros Hv Hh Hm Hup Hc. rewrite (upload_file_fresh _ _ _ _ _ Hv Hh Hm).
  unfold try_except, upload_body. erewrite bind_run by exact Hup. cbn [fst snd].
  by rewrite Hc.
Qed.

Lemma conclude_upload_import path uf st (w1 w2 : World P) store imported :
  in_strs st ["FAILED"; "failed"] = false ->
  w_store w1 = Some store ->
  import_into_store P store uf w1 = (Ret imported, w2) ->
  conclude_upload P path uf st w1 =
    match imported with
    | ImportReturn => (Ret None, w2)
    | ImportGoOn => track_file P path uf w2
    end.
Proof.
  intros Hst Hstore Himp. unfold conclude_upload. rewrite Hst.
  unfold bind at 1, get. cbn. rewrite Hstore.
  erewrite bind_run by exact Himp. by destruct imported.
Qed.



Lemma count_uploads_app t1 t2 :
  count_uploads (t1 ++ t2) = (count_uploads t1 + count_uploads t2)%nat.
Proof. unfold count_uploads. by rewrite List.filter_app, length_app. Qed.

(** C5. After [upload_file] has returned a result for a file, a second
    call in a world with the same tracking store, where the path still
    resolves to the same key and the file is unchanged, returns the same
    name and URI, which are those of the tracking entry, and does nothing
    but log: no call reaches the remote service. If the file was not tracked
    before the first call, the two calls together send exactly one upload. *)
Theorem upload_file_twice fuel fuel' show show' path (w w2 : World P) r :
  (upload_file P fuel path show w).1 = Ret (Some r) ->
  w_tracked w2 = w_tracked (upload_file P fuel path show w).2 ->
  fs_lookup (w_fs w2) path = fs_lookup (w_fs w) path ->
  fs_resolve (w_fs w2) path = fs_resolve (w_fs w) path ->
  upload_file P fuel' path show' w2 =
    (Ret (Some r),
     with_trace w2 (w_trace w2 ++ [Log INFO ("File already uploaded: " +:+ path_name path)]))
  /\ (exists e,
        w_tracked (upload_file P fuel path show w).2 !! fs_resolve (w_fs w) path = Some e
        /\ e !! "name" = Some (r_name r) /\ e !! "uri" = Some (r_uri r))
  /\ ((_is_file_tracked P path w).1 = Ret false ->
      exists t1,
        w_trace (upload_file P fuel path show w).2 = w_trace w ++ t1
        /\ count_uploads
             (t1 ++ [Log INFO ("File already uploaded: " +:+ path_name path)]) = 1%nat).
Proof.
  intros Hrun Htr Hlk Hres.
  destruct (upload_file P fuel path show w) as [o w'] eqn:Hup. cbn [fst snd] in *. subst o.
  pose proof Hup as Hret.
  apply upload_file_returns in Hret as (e & h & Hv & Hh & He & Hhash & Hname & Huri).
  split; [|split].
  - assert (Hv2 : validate_pdf_file (w_fs w2) path = inl tt)
      by by rewrite (validate_pdf_file_lookup _ (w_fs w)).
    assert (Hh2 : (_compute_file_hash P path w2).1 = Ret h)
      by by rewrite (compute_file_hash_lookup _ _ w).
    assert (Hm2 : hash_matches (w_tracked w2) (fs_resolve (w_fs w2) path) h = true).
    { apply hash_matches_true. exists e. by rewrite Htr, Hres. }
    rewrite (upload_file_cached _ _ _ _ _ Hv2 Hh2 Hm2).
    unfold bind, tracked_field, get, ret. cbn.
    rewrite Htr, Hres, He, Hname. cbn. rewrite Htr, He, Huri. by destruct r.
  - eauto.
  - intros Hnot.
    rewrite (is_file_tracked_hash _ _ _ Hh) in Hnot. injection Hnot as Hm.
    destruct (upload_file_fresh_trace fuel path show w h Hv Hh Hm) as (t & Ht & Hq).
    rewrite Hup in Ht. cbn [snd] in Ht.
    eexists. split; [exact Ht|].
    rewrite count_uploads_app.
    change (count_uploads (Log INFO ("Uploading file: " +:+ path_name path)
                           :: Call (FilesUpload path) :: t))
      with (Datatypes.S (count_uploads t)).
    by rewrite (quiet_no_uploads _ Hq).
Qed.

(** *** Loading the tracking file *)

Lemma load_tracking_missing (w : World P) :
  w_disk w = TFMissing -> _load_tracking P w = (Ret ∅, w).
Proof. intros H. unfold _load_tracking, bind, get. cbn. by rewrite H. Qed.

Lemma load_tracking_unreadable (w : World P) data :
  w_disk w = TFContent false data ->
  _load_tracking P w =
    (Ret ∅, with_trace w (w_trace w ++
       [Log WARNING "Failed to load tracking file: tracking file. Starting fresh."])).
Proof. intros H. unfold _load_tracking, bind, get. cbn. by rewrite H. Qed.

Lemma load_tracking_malformed (w : World P) data :
  w_disk w = TFContent true data ->
  utf8_valid data = true -> json_parse P data = None ->
  _load_tracking P w =
    (Ret ∅, with_trace w (w_trace w ++
       [Log WARNING "Failed to load tracking file: tracking file. Starting fresh."])).
Proof.
  intros H Hu Hj. unfold _load_tracking, bind, get. cbn. rewrite H. cbn.
  unfold try_except. by rewrite Hu, Hj.
Qed.

Lemma load_tracking_parsed (w : World P) data m :
  w_disk w = TFContent true data ->
  utf8_valid data = true -> json_parse P data = Some m ->
  _load_tracking P w = (Ret m, w).
Proof.
  intros H Hu Hj. unfold _load_tracking, bind, get. cbn. rewrite H. cbn.
  unfold try_except. by rewrite Hu, Hj.
Qed.

(** Bytes that are not text: the decoding error is neither a
    [JSONDecodeError] nor an [IOError], and leaves [_load_tracking]. *)
Lemma load_tracking_undecodable (w : World P) data :
  w_disk w = TFContent true data ->
  utf8_valid data = false ->
  _load_tracking P w = (Raise (Exn UnicodeDecodeError "utf-8"), w).
Proof.
  intros H Hu. unfold _load_tracking, bind, get. cbn. rewrite H. cbn.
  unfold try_except. by rewrite Hu.
Qed.

(** [_load_tracking] raises in that case only. *)
Lemma load_tracking_raises (w : World P) e :
  (_load_tracking P w).1 = Raise e <->
  exists data, w_disk w = TFContent true data /\ utf8_valid data = false
               /\ e = Exn UnicodeDecodeError "utf-8".
Proof.
  destruct (w_disk w) as [|[] data] eqn:Hd.
  - rewrite load_tracking_missing by done. split; [done|]. by intros (? & ? & _).
  - destruct (utf8_valid data) eqn:Hu.
    + destruct (json_parse P data) as [m|] eqn:Hj.
      * rewrite (load_tracking_parsed _ _ _ Hd Hu Hj). split; [done|].
        intros (? & [= <-] & ? & _). congruence.
      * rewrite (load_tracking_malformed _ _ Hd Hu Hj). split; [done|].
        intros (? & [= <-] & ? & _). congruence.
    + rewrite (load_tracking_undecodable _ _ Hd Hu). cbn. split.
      * intros [= <-]. eauto.
      * by intros (? & _ & _ & ->).
  - rewrite (load_tracking_unreadable _ _ Hd). split; [done|]. by intros (? & [=] & _).
Qed.

(** C6, at the input where it fails. A tracking file that holds the single
    byte [0xFF]: [_load_tracking] raises [UnicodeDecodeError] instead of
    returning the empty store. *)
Theorem load_tracking_not_text (w : World P) :
  _load_tracking P (with_disk w (TFContent true [Byte.xff])) =
    (Raise (Exn UnicodeDecodeError "utf-8"),
     with_disk w (TFContent true [Byte.xff])).
Proof. by apply (load_tracking_undecodable _ [Byte.xff]). Qed.

(** *** When [upload_file] raises *)

(** With a file that can be read and entries that have a name and a URI,
    nothing is raised by [upload_file]. *)
Lemma upload_file_no_raise fuel path show (w : World P) :
  (forall e, (_compute_file_hash P path w).1 <> Raise e) ->
  (forall ent, w_tracked w !! fs_resolve (w_fs w) path = Some ent ->
               is_Some (ent !! "name") /\ is_Some (ent !! "uri")) ->
  forall e, (upload_file P fuel path show w).1 <> Raise e.
Proof.
  intros Hread Hfields e.
  destruct (validate_pdf_file (w_fs w) path) as [[]|reason] eqn:Hv.
  2:{ by rewrite (upload_file_invalid _ _ _ _ _ Hv). }
  destruct (_compute_file_hash P path w).1 as [h|e'|] eqn:Hh.
  2:{ by destruct (Hread e'). }
  2:{ by destruct (compute_file_hash_total path w). }
  destruct (hash_matches (w_tracked w) (fs_resolve (w_fs w) path) h) eqn:Hm.
  - rewrite (upload_file_cached _ _ _ _ _ Hv Hh Hm).
    apply hash_matches_true in Hm as (ent & He & _).
    destruct (Hfields ent He) as [[n Hn] [u Hu]].
    unfold bind, tracked_field, get, ret. cbn. rewrite He, Hn. cbn. by rewrite He, Hu.
  - rewrite (upload_file_fresh _ _ _ _ _ Hv Hh Hm). unfold try_except.
    by destruct (upload_body P fuel path show w) as [[x|e'|] w1].
Qed.

(** *** Directories *)

Lemma uploads_only_quiet ok ev : quiet ev -> uploads_only ok ev.
Proof. by destruct ev as [[]| | |]. Qed.

Lemma uploads_only_mono (ok ok' : string -> Prop) ev :
  (forall p, ok p -> ok' p) -> uploads_only ok ev -> uploads_only ok' ev.
Proof. intros H. destruct ev as [[]| | |]; cbn; auto. Qed.

(** [upload_file] uploads its own file, if any. *)
Lemma reaches_upload_file fuel path show :
  reaches (uploads_only (eq path)) (upload_file P fuel path show).
Proof.
  intros w.
  destruct (validate_pdf_file (w_fs w) path) as [[]|reason] eqn:Hv.
  2:{ rewrite (upload_file_invalid _ _ _ _ _ Hv). cbn. repeat split.
      eexists [_]. split; [done|]. by repeat constructor. }
  destruct (_compute_file_hash P path w).1 as [h|e'|] eqn:Hh.
  2:{ rewrite (upload_file_hash_error _ _ _ _ _ Hv Hh). apply reach_refl. }
  2:{ by destruct (compute_file_hash_total path w). }
  destruct (hash_matches (w_tracked w) (fs_resolve (w_fs w) path) h) eqn:Hm.
  - rewrite (upload_file_cached _ _ _ _ _ Hv Hh Hm).
    match goal with |- reach _ _ (?m ?w1).2 =>
      assert (Hpure : frames (uploads_only (eq path)) m)
    end.
    { unfold tracked_field.
      repeat (apply frames_bind; [auto with fm|intros ?]);
        repeat case_match; auto with fm. }
    eapply reach_trans; [|apply frame_reach, Hpure].
    repeat split. eexists [_]. split; [done|]. by repeat constructor.
  - rewrite (upload_file_fresh _ _ _ _ _ Hv Hh Hm).
    apply reaches_try.
    + clear. intros w. unfold upload_body, bind.
      pose proof (upload_and_wait_trace fuel path show w) as Hw. cbn zeta in Hw.
      destruct Hw as (Hfs & Hst & Hnow & Hcw & _ & _ & t & Ht & Hq).
      assert (Hfirst : reach (uploads_only (eq path)) w
                         (upload_and_wait P fuel path show w).2).
      { repeat split; try done. eexists. split; [exact Ht|].
        constructor; [done|]. constructor; [done|].
        eapply Forall_impl; [done|]. intros ev Hev.
        by apply uploads_only_quiet, polling_quiet. }
      destruct (upload_and_wait P fuel path show w) as [[[uf st]|e|] w1];
        cbn [fst snd] in *; try done.
      eapply reach_trans; [done|].
      eapply reach_mono; [apply uploads_only_quiet|apply reaches_conclude_upload].
    + intros e. apply frames_reaches.
      apply frames_bind; [by apply frames_emit|auto with fm].
Qed.

Lemma reaches_upload_each fuel show files : forall acc,
  reaches (uploads_only (fun p => p ∈ files)) (upload_each P fuel show files acc).
Proof.
  induction files as [|f rest IH]; intros acc; cbn [upload_each].
  - apply frames_reaches. auto with fm.
  - apply reaches_bind.
    + intros w. eapply reach_mono; [|apply reaches_upload_file].
      intros ev. apply uploads_only_mono. intros p <-. set_solver.
    + intros result w. eapply reach_mono; [|apply IH].
      intros ev. apply uploads_only_mono. set_solver.
Qed.

Lemma upload_each_batch fuel show files : forall acc rs (w w' : World P),
  upload_each P fuel show files acc w = (Ret rs, w') <->
  exists rs', batch fuel show w files rs' w' /\ rs = acc ++ rs'.
Proof.
  induction files as [|f rest IH]; intros acc rs w w'; cbn [upload_each].
  - split.
    + intros [= <- <-]. exists []. split; [constructor|by rewrite app_nil_r].
    + intros (rs' & Hb & ->). inversion Hb; subst. by rewrite app_nil_r.
  - split.
    + intros H. apply bind_inv in H as (o & w1 & Hup & H).
      apply IH in H as (rs' & Hb & ->).
      exists (option_list o ++ rs'). split; [by econstructor|].
      destruct o; cbn; by rewrite <- ?app_assoc.
    + intros (rs' & Hb & ->). inversion Hb as [|? w1 ? ? ? o rs1 Hup Hb1]; subst.
      erewrite bind_run by exact Hup. apply IH. exists rs1. split; [done|].
      destruct o; cbn; by rewrite <- ?app_assoc.
Qed.

(** An exception that leaves [upload_file] ends the batch there. *)
Lemma upload_each_abort fuel show f rest acc (w w1 : World P) e :
  upload_file P fuel f show w = (Raise e, w1) ->
  upload_each P fuel show (f :: rest) acc w = (Raise e, w1).
Proof. intros H. cbn [upload_each]. by erewrite bind_raise. Qed.

Lemma upload_directory_invalid fuel dir show (w : World P) r :
  validate_directory (w_fs w) dir = inr r ->
  upload_directory P fuel dir show w =
    (Ret [], with_trace w (w_trace w ++ [Log ERROR (message r dir)])).
Proof. intros H. unfold upload_directory, bind, get. cbn. by rewrite H. Qed.

Lemma upload_directory_empty fuel dir show (w : World P) :
  validate_directory (w_fs w) dir = inl tt ->
  glob_pdf (w_fs w) dir = [] ->
  upload_directory P fuel dir show w =
    (Ret [], with_trace w (w_trace w ++
       [Log WARNING ("No PDF files found in directory: " +:+ dir)])).
Proof. intros H Hg. unfold upload_directory, bind, get. cbn. by rewrite H, Hg. Qed.

(** What [upload_directory] returns, when it returns: the results of the
    batch over the [*.pdf] entries of the directory, with the count in the
    last log entry. *)
Lemma upload_directory_returns fuel dir show (w w' : World P) rs :
  validate_directory (w_fs w) dir = inl tt ->
  glob_pdf (w_fs w) dir <> [] ->
  upload_directory P fuel dir show w = (Ret rs, w') <->
  exists w1,
    batch fuel show
      (with_trace w (w_trace w ++
         [Log INFO ("Found " +:+ pretty (length (glob_pdf (w_fs w) dir))
                    +:+ " PDF file(s) in " +:+ dir)]))
      (glob_pdf (w_fs w) dir) rs w1
    /\ w' = with_trace w1 (w_trace w1 ++
         [Log INFO ("Successfully uploaded " +:+ pretty (length rs) +:+ "/"
                    +:+ pretty (length (glob_pdf (w_fs w) dir)) +:+ " file(s)")]).
Proof.
  intros Hv Hg. unfold upload_directory, bind at 1, get. cbn. rewrite Hv.
  destruct (glob_pdf (w_fs w) dir) as [|f rest] eqn:Hglob; [done|].
  erewrite bind_run by reflexivity. split.
  - intros H. apply bind_inv in H as (rs1 & w1 & Heach & H).
    apply upload_each_batch in Heach as (rs' & Hb & ->). cbn in H.
    injection H as <- <-. eauto.
  - intros (w1 & Hb & ->).
    erewrite bind_run by (apply upload_each_batch; exists rs; split; [exact Hb|done]).
    reflexivity.
Qed.

Lemma joinpath_inj dir name name' :
  joinpath dir name = joinpath dir name' -> name = name'.
Proof.
  unfold joinpath. induction dir as [|c dir IH]; cbn; intros H.
  - by injection H.
  - injection H as H. by apply IH.
Qed.

Lemma glob_pdf_elem fs dir p :
  p ∈ glob_pdf fs dir ->
  exists name, p = joinpath dir name /\ endswith name ".pdf" = true.
Proof.
  unfold glob_pdf. destruct (fs_lookup fs dir) as [[| r names |]|];
    try by intros ?%elem_of_nil.
  intros (name & -> & Hin)%list_elem_of_fmap.
  apply list_elem_of_In, List.filter_In in Hin as [_ Hend]. eauto.
Qed.

Lemma reaches_upload_directory fuel dir show (w : World P) :
  reach (uploads_only (fun p => p ∈ glob_pdf (w_fs w) dir)) w
    (upload_directory P fuel dir show w).2.
Proof.
  destruct (validate_directory (w_fs w) dir) as [[]|reason] eqn:Hv.
  2:{ rewrite (upload_directory_invalid _ _ _ _ _ Hv). cbn. repeat split.
      eexists [_]. split; [done|]. by repeat constructor. }
  destruct (glob_pdf (w_fs w) dir) as [|f rest] eqn:Hg.
  { rewrite (upload_directory_empty _ _ _ _ Hv Hg). cbn. repeat split.
    eexists [_]. split; [done|]. by repeat constructor. }
  unfold upload_directory, bind at 1, get. cbn. rewrite Hv, Hg.
  match goal with |- reach ?Q w (?m w).2 => assert (Hm : reaches Q m) end; [|apply Hm].
  apply reaches_bind; [apply frames_reaches; by apply frames_emit|intros _].
  apply reaches_bind; [apply reaches_upload_each|intros rs].
  apply reaches_bind; [apply frames_reaches; by apply frames_emit|intros _].
  apply frames_reaches. auto with fm.
Qed.

(** C10. [upload_directory] hands to [upload_file], and so to the remote
    service, only entries of the directory whose name ends in [.pdf] in
    lower case: an entry whose name does not end so is never uploaded by
    it, whatever the case of its suffix. [validate_pdf_file] itself accepts
    a file with the suffix [.PDF], as it does [REPORT.PDF] in a directory
    [scans], which the enumeration leaves out. *)
Theorem upload_directory_lowercase_only :
  (forall fs dir p,
     p ∈ glob_pdf fs dir ->
     exists name, p = joinpath dir name /\ endswith name ".pdf" = true)
  /\ (forall fs dir name,
        endswith name ".pdf" = false -> joinpath dir name ∉ glob_pdf fs dir)
  /\ (forall fuel dir show (w : World P) name,
        endswith name ".pdf" = false ->
        exists t,
          w_trace (upload_directory P fuel dir show w).2 = w_trace w ++ t
          /\ Call (FilesUpload (joinpath dir name)) ∉ t)
  /\ (forall fs p,
        path_suffix p = ".PDF" -> path_is_file fs p = true -> st_size fs p <> 0 ->
        validate_pdf_file fs p = inl tt)
  /\ endswith "REPORT.PDF" ".pdf" = false
  /\ path_suffix (joinpath "scans" "REPORT.PDF") = ".PDF".
Proof.
  split; [exact glob_pdf_elem|].
  assert (Hnot : forall fs dir name,
            endswith name ".pdf" = false -> joinpath dir name ∉ glob_pdf fs dir).
  { intros fs dir name Hend (name' & Heq & Hend')%glob_pdf_elem.
    apply joinpath_inj in Heq as <-. congruence. }
  split; [exact Hnot|]. split; [|split; [|by vm_compute]].
  - intros fuel dir show w name Hend.
    destruct (reaches_upload_directory fuel dir show w) as (_ & _ & _ & _ & t & Ht & Hq).
    exists t. split; [done|]. intros Hin.
    rewrite Forall_forall in Hq. apply Hq in Hin. cbn in Hin.
    by apply (Hnot _ _ _ Hend) in Hin.
  - intros fs p Hsuf Hfile Hsize. unfold validate_pdf_file.
    assert (Hex : path_exists fs p = true).
    { unfold path_exists, path_is_file in *. by destruct (fs_lookup fs p). }
    rewrite Hex, Hfile, Hsuf. cbn.
    by destruct (Z.eqb_spec (st_size fs p) 0).
Qed.

End with_platform.
End file_manager_facts.

(** ** The retry wrapper *)

Module rag_facts.
Import rag_handler.

Section with_model.
Context {S D : Type}.
Context (ask_question : string -> option string -> S -> (exn + string) * S).
Context (question : string) (store : option string).
Context (max_retries : Z) (retry_delay : D).

#[local] Abbreviation loop := (retry_loop ask_question question store max_retries retry_delay).
#[local] Abbreviation before := (state_before ask_question question store).
#[local] Abbreviation result := (attempt_result ask_question question store).
#[local] Abbreviation failed_attempt := (failed_attempt question store max_retries retry_delay).
#[local] Abbreviation last_failure := (last_failure ask_question question store).

Lemma before_succ s i :
  before s (Datatypes.S i) = before (snd (ask_question question store s)) i.
Proof.
  unfold state_before.
  exact (Nat.iter_succ_r i (fun s => snd (ask_question question store s)) s).
Qed.

Lemma result_succ s i :
  result s (Datatypes.S i) = result (snd (ask_question question store s)) i.
Proof. unfold attempt_result. by rewrite before_succ. Qed.

Lemma failed_attempt_eq attempt :
  failed_attempt attempt =
    Asked question store ::
    (if attempt <? max_retries - 1
     then [Warned (attempt + 1); Slept retry_delay] else [Errored]).
Proof. reflexivity. Qed.

Lemma loop_all_fail attempts : forall last s tr,
  (forall i, (i < length attempts)%nat -> exists e, result s i = inl e) ->
  loop attempts last s tr =
    (inl (raise_from RuntimeError (failure_message max_retries)
            (last_failure s (length attempts) last)),
     before s (length attempts),
     tr ++ flat_map failed_attempt attempts).
Proof.
  induction attempts as [|attempt rest IH]; intros last s tr Hfail.
  - cbn. by rewrite app_nil_r.
  - destruct (Hfail 0%nat) as [e He]; [cbn; lia|].
    unfold attempt_result in He. cbn in He.
    cbn [retry_loop].
    destruct (ask_question question store s) as [r s'] eqn:Hask.
    cbn in He. subst r.
    rewrite IH.
    + f_equal; [f_equal|].
      * f_equal. f_equal.
        destruct rest as [|a' rest']; cbn [length rag_handler.last_failure].
        -- unfold attempt_result. cbn. by rewrite Hask.
        -- destruct (Hfail (Datatypes.S (length rest'))) as [e' He']; [cbn; lia|].
           rewrite He'. rewrite result_succ, Hask in He'. cbn [snd] in He'.
           by rewrite He'.
      * cbn [length]. by rewrite before_succ, Hask.
      * cbn [flat_map]. rewrite failed_attempt_eq.
        destruct (attempt <? max_retries - 1); cbn; by rewrite <- ?app_assoc.
    + intros i Hi. specialize (Hfail (Datatypes.S i)).
      rewrite result_succ, Hask in Hfail. apply Hfail. cbn. lia.
Qed.

Lemma loop_first_success attempts : forall k a last s tr,
  (k < length attempts)%nat ->
  (forall i, (i < k)%nat -> exists e, result s i = inl e) ->
  result s k = inr a ->
  loop attempts last s tr =
    (inr a, before s (Datatypes.S k),
     tr ++ flat_map failed_attempt (take k attempts) ++ [Asked question store]).
Proof.
  induction attempts as [|attempt rest IH]; intros k a last s tr Hk Hfail Hok.
  - cbn in Hk. lia.
  - cbn [retry_loop].
    destruct (ask_question question store s) as [r s'] eqn:Hask.
    destruct k as [|k].
    + unfold attempt_result in Hok. cbn in Hok. rewrite Hask in Hok. cbn in Hok.
      subst r. cbn. by rewrite Hask.
    + destruct (Hfail 0%nat) as [e He]; [lia|].
      unfold attempt_result in He. cbn in He. rewrite Hask in He. cbn in He. subst r.
      rewrite (IH k a).
      * f_equal; [f_equal|].
        -- by rewrite (before_succ s (Datatypes.S k)), Hask.
        -- cbn [take flat_map]. rewrite failed_attempt_eq.
           destruct (attempt <? max_retries - 1); cbn; by rewrite <- ?app_assoc.
      * cbn in Hk. lia.
      * intros i Hi. specialize (Hfail (Datatypes.S i)).
        rewrite result_succ, Hask in Hfail. apply Hfail. lia.
      * by rewrite result_succ, Hask in Hok.
Qed.

Lemma count_asked_app (t1 t2 : list (@event D)) :
  count_asked (t1 ++ t2) = (count_asked t1 + count_asked t2)%nat.
Proof. unfold count_asked. by rewrite List.filter_app, length_app. Qed.

Lemma delays_app (t1 t2 : list (@event D)) :
  delays (t1 ++ t2) = delays t1 ++ delays t2.
Proof. unfold delays. apply omap_app. Qed.

Lemma count_asked_failed attempts :
  count_asked (flat_map failed_attempt attempts) = length attempts.
Proof.
  induction attempts as [|a l IH]; [done|].
  cbn [flat_map]. rewrite count_asked_app, IH. unfold rag_handler.failed_attempt.
  destruct (a <? max_retries - 1); reflexivity.
Qed.

Lemma delays_warned attempts :
  Forall (fun attempt => attempt < max_retries - 1) attempts ->
  flat_map failed_attempt attempts =
    flat_map (fun i => [Asked question store; Warned (i + 1); Slept retry_delay]) attempts.
Proof.
  induction 1 as [|a l Ha _ IH]; [done|].
  cbn [flat_map]. rewrite IH, failed_attempt_eq.
  by destruct (Z.ltb_spec a (max_retries - 1)); [|lia].
Qed.

Lemma delays_retries (attempts : list Z) :
  delays (flat_map (fun i => [Asked question store; Warned (i + 1); Slept retry_delay])
            attempts)
  = replicate (length attempts) retry_delay.
Proof. induction attempts as [|a l IH]; [done|]. cbn. by f_equal. Qed.

Lemma loop_count_le attempts : forall last s tr,
  (count_asked (loop attempts last s tr).2 <= count_asked tr + length attempts)%nat.
Proof.
  induction attempts as [|attempt rest IH]; intros last s tr; cbn [retry_loop].
  - cbn [snd length]. lia.
  - destruct (ask_question question store s) as [[e|a] s'].
    + etrans; [apply IH|].
      destruct (attempt <? max_retries - 1);
        rewrite !count_asked_app; cbn [length]; unfold count_asked; cbn; lia.
    + cbn [snd]. rewrite count_asked_app. cbn [length]. unfold count_asked. cbn. lia.
Qed.

Lemma take_attempts_lt k :
  (k < Z.to_nat max_retries)%nat ->
  Forall (fun attempt => attempt < max_retries - 1) (take k (seqZ 0 max_retries)).
Proof.
  intros Hk. apply Forall_lookup. intros i x Hx.
  apply lookup_take_Some in Hx as [Hx Hi].
  apply lookup_seqZ in Hx as [-> _]. lia.
Qed.

Lemma attempts_split :
  1 <= max_retries ->
  flat_map failed_attempt (seqZ 0 max_retries) =
    flat_map (fun i => [Asked question store; Warned (i + 1); Slept retry_delay])
      (seqZ 0 (max_retries - 1))
    ++ [Asked question store; Errored].
Proof.
  intros Hmax.
  replace max_retries with ((max_retries - 1) + 1) at 2 by lia.
  rewrite seqZ_app by lia. rewrite flat_map_app. f_equal.
  - apply delays_warned. apply Forall_seqZ. lia.
  - rewrite seqZ_cons by lia. rewrite seqZ_nil by lia.
    cbn [flat_map]. rewrite failed_attempt_eq, app_nil_r.
    by destruct (Z.ltb_spec (0 + (max_retries - 1)) (max_retries - 1)); [lia|].
Qed.

(** C3. With [max_retries >= 1], [ask_with_retry] calls [ask_question] at
    most [max_retries] times and returns the first answer it gets, having
    slept [retry_delay] once after each failed call before it. When every
    call fails there are exactly [max_retries] calls, each but the last
    followed by one sleep of [retry_delay], and the error raised is a
    [RuntimeError] whose cause is the exception of the last call. *)
Theorem ask_with_retry_retries (s : S) :
  1 <= max_retries ->
  let run := ask_with_retry ask_question question store max_retries retry_delay s in
  (count_asked run.2 <= Z.to_nat max_retries)%nat
  /\ (forall k a,
        (k < Z.to_nat max_retries)%nat ->
        (forall i, (i < k)%nat -> exists e, result s i = inl e) ->
        result s k = inr a ->
        run.1.1 = inr a
        /\ count_asked run.2 = Datatypes.S k
        /\ delays run.2 = replicate k retry_delay)
  /\ ((forall i, (i < Z.to_nat max_retries)%nat -> exists e, result s i = inl e) ->
      count_asked run.2 = Z.to_nat max_retries
      /\ run.2 =
           flat_map (fun i => [Asked question store; Warned (i + 1); Slept retry_delay])
             (seqZ 0 (max_retries - 1))
           ++ [Asked question store; Errored]
      /\ exists e,
           result s (Z.to_nat max_retries - 1) = inl e
           /\ run.1.1 = inl (Caused RuntimeError (failure_message max_retries) e)).
Proof.
  intros Hmax run. subst run. unfold ask_with_retry.
  split; [|split].
  - etrans; [apply loop_count_le|]. rewrite length_seqZ. cbn. lia.
  - intros k a Hk Hfail Hok.
    rewrite (loop_first_success _ k a) by (rewrite ?length_seqZ; done).
    cbn [fst snd app].
    rewrite (delays_warned _ (take_attempts_lt k Hk)).
    split; [done|]. split.
    + rewrite count_asked_app.
      rewrite <- (delays_warned _ (take_attempts_lt k Hk)), count_asked_failed.
      rewrite length_take, length_seqZ. cbn. lia.
    + rewrite delays_app, delays_retries, length_take, length_seqZ.
      cbn. rewrite app_nil_r. f_equal. lia.
  - intros Hfail.
    rewrite loop_all_fail by (rewrite length_seqZ; done).
    cbn [fst snd app]. rewrite length_seqZ.
    split; [by rewrite count_asked_failed, length_seqZ|].
    split; [by apply attempts_split|].
    destruct (Z.to_nat max_retries) as [|m] eqn:Hm; [lia|].
    destruct (Hfail m) as [e He]; [lia|].
    exists e. replace (Datatypes.S m - 1)%nat with m by lia.
    split; [done|]. cbn [rag_handler.last_failure]. by rewrite He.
Qed.

(** C9. With [max_retries <= 0], [ask_with_retry] raises the
    [RuntimeError] at once: [ask_question] is never called, nothing is
    slept or logged, the model is left as it was, and the error has no
    cause. *)
Theorem ask_with_retry_no_attempts (s : S) :
  max_retries <= 0 ->
  exists e,
    ask_with_retry ask_question question store max_retries retry_delay s = (inl e, s, [])
    /\ exn_cls e = RuntimeError
    /\ exn_msg e = failure_message max_retries
    /\ exn_cause e = None.
Proof.
  intros Hmax. unfold ask_with_retry. rewrite seqZ_nil by done.
  eexists. split; [reflexivity|]. done.
Qed.

End with_model.
End rag_facts.

Module rag_examples.
Import rag_handler rag_facts examples.

(** Three attempts against a model that always fails: three calls, two
    sleeps, and the cause is the third failure. *)
Example always_failing_three :
  ask_with_retry (flaky 5) "q" None 3 2 0%nat =
    (inl (Caused RuntimeError "Failed to get response after 3 attempts"
            (Exn ServiceError "failure 2")),
     3%nat,
     [Asked "q" None; Warned 1; Slept 2;
      Asked "q" None; Warned 2; Slept 2;
      Asked "q" None; Errored]).
Proof. vm_compute. reflexivity. Qed.

(** A model that recovers on its second call. *)
Example recovers_on_second :
  ask_with_retry (flaky 1) "q" (Some "store") 3 2 0%nat =
    (inr "answer to q", 2%nat,
     [Asked "q" (Some "store"); Warned 1; Slept 2; Asked "q" (Some "store")]).
Proof. vm_compute. reflexivity. Qed.

Lemma ask_with_retry_retries_witness :
  1 <= 3 /\
  let run := ask_with_retry (flaky 5) "q" None 3 2 0%nat in
  (count_asked run.2 <= Z.to_nat 3)%nat
  /\ (forall k a,
        (k < Z.to_nat 3)%nat ->
        (forall i, (i < k)%nat -> exists e, attempt_result (flaky 5) "q" None 0%nat i = inl e) ->
        attempt_result (flaky 5) "q" None 0%nat k = inr a ->
        run.1.1 = inr a
        /\ count_asked run.2 = Datatypes.S k
        /\ delays run.2 = replicate k 2)
  /\ ((forall i, (i < Z.to_nat 3)%nat ->
         exists e, attempt_result (flaky 5) "q" None 0%nat i = inl e) ->
      count_asked run.2 = Z.to_nat 3
      /\ run.2 =
           flat_map (fun i => [Asked "q" None; Warned (i + 1); Slept 2]) (seqZ 0 (3 - 1))
           ++ [Asked "q" None; Errored]
      /\ exists e,
           attempt_result (flaky 5) "q" None 0%nat (Z.to_nat 3 - 1) = inl e
           /\ run.1.1 = inl (Caused RuntimeError (failure_message 3) e)).
Proof.
  split; [lia|].
  apply (ask_with_retry_retries (flaky 5) "q" None 3 2 0%nat). lia.
Defined.

Lemma ask_with_retry_no_attempts_witness :
  0 <= 0 /\
  exists e,
    ask_with_retry (flaky 5) "q" None 0 2 0%nat = (inl e, 0%nat, [])
    /\ exn_cls e = RuntimeError
    /\ exn_msg e = failure_message 0
    /\ exn_cause e = None.
Proof.
  split; [lia|].
  apply (ask_with_retry_no_attempts (flaky 5) "q" None 0 2 0%nat). lia.
Defined.

End rag_examples.

Module file_manager_examples.
Import file_manager validators file_manager_facts examples.

(** A first upload of [docs/a.pdf]: one upload call, the import, the
    write of the tracking file. *)
Example first_upload :
  let run := upload_file prompt 5 "docs/a.pdf" true (fresh prompt 0%nat) in
  run.1 = Ret (Some {| r_name := PStr "files/0"; r_uri := PStr "uri://0" |})
  /\ w_trace run.2 =
       [Log INFO "Uploading file: a.pdf";
        Call (FilesUpload "docs/a.pdf");
        Log INFO "Waiting for file to be processed...";
        Log INFO "Importing file into File Search Store...";
        Call (ImportFile (PStr "stores/s1") (PStr "files/0"));
        Log INFO "Waiting for file import to complete...";
        Log INFO "File import operation completed successfully";
        Log INFO "File successfully imported into File Search Store";
        WriteTracking;
        Log INFO "Successfully uploaded: a.pdf"]
  /\ w_tracked run.2 !! "/home/user/docs/a.pdf" =
       Some (new_entry (PStr "files/0") (PStr "uri://0") "%PDF"
               "2024-01-01 00:00:00" "docs/a.pdf" (PStr "stores/s1")).
Proof. vm_compute. repeat split; reflexivity. Qed.

(** Three valid PDF files and a text file: three uploads, and the count
    reported is three. *)
Example directory_of_three :
  let run := upload_directory prompt 5 "docs" true (fresh prompt 0%nat) in
  run.1 = Ret [{| r_name := PStr "files/0"; r_uri := PStr "uri://0" |};
               {| r_name := PStr "files/2"; r_uri := PStr "uri://2" |};
               {| r_name := PStr "files/4"; r_uri := PStr "uri://4" |}]
  /\ List.filter is_upload (w_trace run.2) =
       [Call (FilesUpload "docs/a.pdf"); Call (FilesUpload "docs/b.pdf");
        Call (FilesUpload "docs/c.pdf")]
  /\ last (w_trace run.2) = Some (Log INFO "Successfully uploaded 3/3 file(s)").
Proof. vm_compute. repeat split; reflexivity. Qed.

(** A file with the suffix [.PDF] is uploaded when given by its path, and
    left out when its directory is uploaded. *)
Example capitals_alone :
  (upload_file prompt 5 "scans/REPORT.PDF" true (fresh prompt 0%nat)).1 =
    Ret (Some {| r_name := PStr "files/0"; r_uri := PStr "uri://0" |}).
Proof. vm_compute. repeat split; reflexivity. Qed.

Example capitals_in_directory :
  let run := upload_directory prompt 5 "scans" true (fresh prompt 0%nat) in
  run.1 = Ret [{| r_name := PStr "files/0"; r_uri := PStr "uri://0" |}]
  /\ List.filter is_upload (w_trace run.2) = [Call (FilesUpload "scans/a.pdf")].
Proof. vm_compute. repeat split; reflexivity. Qed.

(** C2, at the input where it fails. A PDF file that exists, is not empty
    and cannot be opened: the error of [open] in [_is_file_tracked] is
    raised to the caller of [upload_file], and nothing is logged. *)
Theorem upload_file_unreadable :
  upload_file prompt 5 "locked/locked.pdf" true (fresh prompt 0%nat) =
    (Raise (Exn PermissionError "locked/locked.pdf"), fresh prompt 0%nat).
Proof. vm_compute. repeat split; reflexivity. Qed.

(** A tracking entry without a name, as a tracking file edited by hand may
    give: the [KeyError] of the cached answer is raised as well. *)
Example upload_file_entry_without_name :
  let w := with_tracked (fresh prompt 0%nat)
             {["/home/user/docs/a.pdf" := {["hash" := PStr "%PDF"]}]} in
  (upload_file prompt 5 "docs/a.pdf" true w).1 = Raise (Exn KeyError "name").
Proof. vm_compute. repeat split; reflexivity. Qed.

(** C8, at the input where it fails. A directory whose first PDF file
    cannot be opened and whose second is valid: the batch ends with the
    error of the first, and the second file is never uploaded. *)
Theorem upload_directory_aborts :
  let run := upload_directory prompt 5 "locked" true (fresh prompt 0%nat) in
  glob_pdf docs "locked" = ["locked/locked.pdf"; "locked/a.pdf"]
  /\ validate_pdf_file docs "locked/a.pdf" = inl tt
  /\ run.1 = Raise (Exn PermissionError "locked/locked.pdf")
  /\ w_trace run.2 = [Log INFO "Found 2 PDF file(s) in locked"].
Proof. vm_compute. repeat split; reflexivity. Qed.

(** An import that never completes: 150 turns, 300 units slept, and the
    upload is recorded all the same. *)
Example stalled_import :
  let run := upload_file stalled 5 "docs/a.pdf" true (fresh stalled 0%nat) in
  run.1 = Ret (Some {| r_name := PStr "files/0"; r_uri := PStr "uri://0" |})
  /\ total_sleep (w_trace run.2) = 300
  /\ is_Some (w_tracked run.2 !! "/home/user/docs/a.pdf").
Proof. vm_compute. repeat split; [reflexivity..|]. eexists. reflexivity. Qed.

(** An import that reports failure at the second look. *)
Example failed_import :
  let run := upload_file failing 5 "docs/a.pdf" true (fresh failing 0%nat) in
  run.1 = Ret None /\ w_tracked run.2 = ∅ /\ total_sleep (w_trace run.2) = 2.
Proof. vm_compute. repeat split; reflexivity. Qed.

(** The file has changed since it was tracked: it is uploaded again. *)
Lemma is_file_tracked_spec_witness :
  let w := with_tracked (fresh prompt 0%nat) stale in
  (_is_file_tracked prompt "docs/a.pdf" w).1 = Ret false
  /\ exists t,
       w_trace (upload_file prompt 5 "docs/a.pdf" true w).2 =
         w_trace w ++ Log INFO ("Uploading file: " +:+ path_name "docs/a.pdf")
                   :: Call (FilesUpload "docs/a.pdf") :: t
       /\ count_uploads t = 0%nat.
Proof.
  intros w.
  destruct (is_file_tracked_spec (P:=prompt) "docs/a.pdf" w) as (_ & _ & H).
  destruct (H "%PDF") as [Hfalse Hupload].
  - vm_compute. reflexivity.
  - intros e He. vm_compute in He. injection He as <-. vm_compute. discriminate.
  - split; [exact Hfalse|]. apply Hupload. vm_compute. reflexivity.
Defined.

(** The same file twice: the second call answers from the store. *)
Lemma upload_file_twice_witness :
  let w := fresh prompt 0%nat in
  let w2 := (upload_file prompt 5 "docs/a.pdf" true w).2 in
  upload_file prompt 7 "docs/a.pdf" false w2 =
    (Ret (Some first_result),
     with_trace w2 (w_trace w2 ++
       [Log INFO ("File already uploaded: " +:+ path_name "docs/a.pdf")]))
  /\ (exists e,
        w_tracked w2 !! fs_resolve (w_fs w) "docs/a.pdf" = Some e
        /\ e !! "name" = Some (r_name first_result)
        /\ e !! "uri" = Some (r_uri first_result))
  /\ ((_is_file_tracked prompt "docs/a.pdf" w).1 = Ret false ->
      exists t1,
        w_trace w2 = w_trace w ++ t1
        /\ count_uploads
             (t1 ++ [Log INFO ("File already uploaded: " +:+ path_name "docs/a.pdf")])
           = 1%nat).
Proof.
  intros w w2.
  apply (upload_file_twice (P:=prompt) 5 7 true false "docs/a.pdf" w w2 first_result).
  - vm_compute. reflexivity.
  - reflexivity.
  - vm_compute. reflexivity.
  - vm_compute. reflexivity.
Defined.


End file_manager_examples.

(** ** Further properties of the validator and of hashing *)

Module validator_more.
Import validators.


End validator_more.

Module hashing_facts.
Import file_manager.

Lemma concat_read_blocks (data : list byte) : concat (read_blocks data) = data.
Proof.
  funelim (read_blocks data); [done|].
  change (drop 4095 data) with (drop block_size (b :: data)) in H.
  cbn [concat]. rewrite H. apply take_drop.
Qed.

(** X2. The blocks read from a file are the file: concatenated they give
    its bytes back, none is empty and none is longer than 4096 bytes. *)
Theorem read_blocks_spec (data : list byte) :
  concat (read_blocks data) = data
  /\ Forall (fun block => (0 < length block <= block_size)%nat) (read_blocks data).
Proof.
  split; [apply concat_read_blocks|].
  funelim (read_blocks data); [done|].
  change (drop 4095 data) with (drop block_size (b :: data)) in H.
  constructor; [|done]. rewrite length_take. cbn [length].
  assert ((0 < block_size)%nat) by apply Nat.lt_0_succ. lia.
Qed.

Section with_platform.
Context {P : Platform}.

Lemma foldl_update_blocks (h : hasher P) (blocks : list (list byte)) :
  (forall h a b, sha256_update P (sha256_update P h a) b = sha256_update P h (a ++ b)) ->
  (forall h, sha256_update P h [] = h) ->
  foldl (sha256_update P) h blocks = sha256_update P h (concat blocks).
Proof.
  intros Happ Hnil. revert h. induction blocks as [|b bs IH]; intros h; cbn.
  - by rewrite Hnil.
  - by rewrite IH, Happ.
Qed.

(** X3. With a hasher for which feeding two blocks is feeding their
    concatenation, the digest [_compute_file_hash] returns for a readable
    file is the digest of its whole content, whatever the block size; the
    world is left as it was. *)
Theorem compute_file_hash_whole path (w : World P) data :
  (forall h a b, sha256_update P (sha256_update P h a) b = sha256_update P h (a ++ b)) ->
  (forall h, sha256_update P h [] = h) ->
  fs_lookup (w_fs w) path = Some (File true data) ->
  _compute_file_hash P path w = (Ret (hexdigest P (sha256_update P (sha256 P) data)), w).
Proof.
  intros Happ Hnil Hfile. unfold _compute_file_hash, bind, get. cbn. rewrite Hfile.
  unfold ret. rewrite (foldl_update_blocks _ _ Happ Hnil).
  by rewrite concat_read_blocks.
Qed.

End with_platform.
End hashing_facts.

(** ** Further properties of the upload pipeline *)

Module upload_more.
Import file_manager validators monad_facts file_manager_facts more_vocabulary.

Section with_platform.
Context {P : Platform}.

Lemma track_file_run_any path uf (w : World P) h store_name :
  (_compute_file_hash P path w).1 = Ret h ->
  match w_store w with
  | Some s => attrs s !! "name" = Some store_name
  | None => store_name = PNone
  end ->
  exists w' t,
    track_file P path uf w =
      (Ret (Some {| r_name := file_name_of uf; r_uri := file_uri_of uf |}), w')
    /\ w_tracked w' =
         <[fs_resolve (w_fs w) path :=
             new_entry (file_name_of uf) (file_uri_of uf) h (w_now w) path store_name]>
           (w_tracked w)
    /\ w_remote w' = w_remote w
    /\ w_trace w' = w_trace w ++ t /\ Forall local t.
Proof.
  intros Hh Hstore. unfold track_file.
  erewrite bind_run by (rewrite compute_file_hash_eq, Hh; reflexivity).
  unfold bind at 1 2 3, get. cbn.
  erewrite (bind_run _ _ w store_name w).
  2:{ destruct (w_store w); [unfold attr; by rewrite Hstore|by subst]. }
  erewrite bind_run by reflexivity.
  unfold _save_tracking, bind, get, write_tracking, log, emit, ret. cbn.
  destruct (w_cache_writable w); cbn; eexists _, _;
    (split; [reflexivity|]); cbn; (split; [reflexivity|]);
    (split; [reflexivity|]);
    rewrite <- app_assoc; (split; [reflexivity|by repeat constructor]).
Qed.

(** X4. An import that raises does not fail the upload. When the
    import request itself raises, [upload_file] logs a warning, records the
    upload in the tracking store and returns its name and URI. *)
Theorem import_error_tolerated fuel path show (w w1 : World P) h uf st store sn fn e r :
  validate_pdf_file (w_fs w) path = inl tt ->
  (_compute_file_hash P path w).1 = Ret h ->
  hash_matches (w_tracked w) (fs_resolve (w_fs w) path) h = false ->
  upload_and_wait P fuel path show w = (Ret (uf, st), w1) ->
  in_strs st ["FAILED"; "failed"] = false ->
  w_store w = Some store ->
  attrs store !! "name" = Some sn ->
  attrs uf !! "name" = Some fn ->
  import_file P sn fn (w_remote w1) = (inl e, r) ->
  let run := upload_file P fuel path show w in
  run.1 = Ret (Some {| r_name := file_name_of uf; r_uri := file_uri_of uf |})
  /\ w_tracked run.2 =
       <[fs_resolve (w_fs w) path :=
           new_entry (file_name_of uf) (file_uri_of uf) h (w_now w) path sn]>
         (w_tracked w)
  /\ Log WARNING ("Failed to import file into store: " +:+ exn_msg e
                  +:+ ". File uploaded but may not be searchable.") ∈ w_trace run.2.
Proof.
  intros Hv Hh Hm Hup Hst Hstore Hsn Hfn Himp run.
  pose proof (upload_and_wait_trace fuel path show w) as Hw1. cbn zeta in Hw1.
  rewrite Hup in Hw1. cbn [snd] in Hw1.
  destruct Hw1 as (Hfs1 & Hstore1 & Hnow1 & _ & Htr1 & _ & _).
  assert (Hstore' : w_store w1 = Some store) by congruence.
  assert (Himport : exists w2 t,
    import_into_store P store uf w1 = (Ret ImportGoOn, w2)
    /\ w_fs w2 = w_fs w1 /\ w_store w2 = w_store w1 /\ w_now w2 = w_now w1
    /\ w_tracked w2 = w_tracked w1
    /\ w_trace w2 = w_trace w1 ++ t
    /\ Log WARNING ("Failed to import file into store: " +:+ exn_msg e
                    +:+ ". File uploaded but may not be searchable.") ∈ t).
  { unfold import_into_store, try_except.
    erewrite bind_run by reflexivity.
    erewrite bind_run by (unfold attr; rewrite Hsn; reflexivity).
    erewrite bind_run by (unfold attr; rewrite Hfn; reflexivity).
    erewrite bind_raise by (unfold call; cbn; rewrite Himp; reflexivity).
    eexists _, _. split; [reflexivity|]. cbn. repeat split.
    - by rewrite <- !app_assoc.
    - set_solver. }
  destruct Himport as (w2 & t & Himport & Hfs2 & Hstore2 & Hnow2 & Htr2 & Ht2 & Hin).
  pose proof (conclude_upload_import path uf st w1 _ store _ Hst Hstore' Himport) as Hc.
  cbn match in Hc.
  destruct (track_file_run_any path uf w2 h sn) as (w' & t' & Htrack & Htr' & _ & Ht' & _).
  { rewrite <- Hh. apply compute_file_hash_lookup. congruence. }
  { rewrite Hstore2, Hstore'. exact Hsn. }
  rewrite Htrack in Hc. subst run.
  rewrite (upload_file_concluded _ _ _ _ _ _ _ _ _ _ Hv Hh Hm Hup Hc).
  cbn [fst snd]. split; [done|]. split.
  - rewrite Htr'. congruence.
  - rewrite Ht', Ht2. set_solver.
Qed.

(** X5. Without a store handle an upload goes through: after remote
    processing [upload_file] makes no further call and takes no time, and
    the entry it records has no store name. *)
Theorem upload_without_store fuel path show (w w1 : World P) h uf st :
  validate_pdf_file (w_fs w) path = inl tt ->
  (_compute_file_hash P path w).1 = Ret h ->
  hash_matches (w_tracked w) (fs_resolve (w_fs w) path) h = false ->
  upload_and_wait P fuel path show w = (Ret (uf, st), w1) ->
  in_strs st ["FAILED"; "failed"] = false ->
  w_store w = None ->
  let run := upload_file P fuel path show w in
  run.1 = Ret (Some {| r_name := file_name_of uf; r_uri := file_uri_of uf |})
  /\ w_tracked run.2 =
       <[fs_resolve (w_fs w) path :=
           new_entry (file_name_of uf) (file_uri_of uf) h (w_now w) path PNone]>
         (w_tracked w)
  /\ w_remote run.2 = w_remote w1
  /\ exists t, w_trace run.2 = w_trace w1 ++ t /\ Forall local t.
Proof.
  intros Hv Hh Hm Hup Hst Hstore run.
  pose proof (upload_and_wait_trace fuel path show w) as Hw1. cbn zeta in Hw1.
  rewrite Hup in Hw1. cbn [snd] in Hw1.
  destruct Hw1 as (Hfs1 & Hstore1 & Hnow1 & _ & Htr1 & _ & _).
  assert (Hstore' : w_store w1 = None) by congruence.
  destruct (track_file_run_any path uf w1 h PNone)
    as (w' & t' & Htrack & Htr' & Hrem & Ht' & Hlocal).
  { rewrite <- Hh. apply compute_file_hash_lookup. congruence. }
  { by rewrite Hstore'. }
  assert (Hc : conclude_upload P path uf st w1 =
               (Ret (Some {| r_name := file_name_of uf; r_uri := file_uri_of uf |}), w')).
  { unfold conclude_upload. rewrite Hst. unfold bind at 1, get. cbn. rewrite Hstore'.
    erewrite bind_run by reflexivity. exact Htrack. }
  subst run. rewrite (upload_file_concluded _ _ _ _ _ _ _ _ _ _ Hv Hh Hm Hup Hc).
  cbn [fst snd]. split; [done|]. split; [rewrite Htr'; congruence|].
  split; [done|]. by exists t'.
Qed.

(** X6. When remote processing ends in failure, [upload_file] returns
    [None] at once: the import is not requested and nothing is recorded. *)
Theorem processing_failure_returns_none fuel path show (w w1 : World P) h uf st :
  validate_pdf_file (w_fs w) path = inl tt ->
  (_compute_file_hash P path w).1 = Ret h ->
  hash_matches (w_tracked w) (fs_resolve (w_fs w) path) h = false ->
  upload_and_wait P fuel path show w = (Ret (uf, st), w1) ->
  in_strs st ["FAILED"; "failed"] = true ->
  upload_file P fuel path show w =
    (Ret None, with_trace w1 (w_trace w1 ++ [Log ERROR "File processing failed"]))
  /\ w_tracked w1 = w_tracked w /\ w_disk w1 = w_disk w.
Proof.
  intros Hv Hh Hm Hup Hst.
  pose proof (upload_and_wait_trace fuel path show w) as Hw1. cbn zeta in Hw1.
  rewrite Hup in Hw1. cbn [snd] in Hw1.
  destruct Hw1 as (_ & _ & _ & _ & Htr1 & Hd1 & _).
  split; [|done].
  apply (upload_file_concluded _ _ _ _ _ _ _ _ _ _ Hv Hh Hm Hup).
  unfold conclude_upload. by rewrite Hst.
Qed.

(** The wait for remote processing has no ceiling of its own. *)
Lemma wait_processed_stuck :
  (forall name r, exists o r',
      files_get P name r = (inr o, r') /\ is_Some (attrs o !! "name")
      /\ processing (polled_state o) = true) ->
  forall fuel uf st (w : World P),
    is_Some (attrs uf !! "name") -> processing st = true ->
    (wait_processed P fuel uf st w).1 = Diverge
    /\ exists t, w_trace (wait_processed P fuel uf st w).2 = w_trace w ++ t
                 /\ total_sleep t = 2 * Z.of_nat fuel.
Proof.
  intros Hstuck. induction fuel as [|fuel IH]; intros uf st w [name Hname] Hst;
    cbn [wait_processed]; unfold processing in Hst; rewrite Hst.
  - split; [done|]. exists []. by rewrite app_nil_r.
  - erewrite bind_run by reflexivity.
    erewrite bind_run by (unfold attr; rewrite Hname; reflexivity).
    match goal with |- context [bind (call _ _) _ ?w1] => set (w1' := w1) end.
    destruct (Hstuck name (w_remote w1')) as (o & r' & Hget & Ho & Hproc).
    erewrite bind_run by (unfold call; rewrite Hget; reflexivity).
    match goal with |- context [wait_processed P fuel o ?st' ?w2] =>
      destruct (IH o st' w2 Ho Hproc) as (Hd & t & Ht & Hs)
    end.
    split; [done|]. rewrite Ht. cbn.
    eexists. split; [by rewrite <- !app_assoc|].
    rewrite !total_sleep_app, Hs.
    change (total_sleep [Sleep 2]) with 2.
    change (total_sleep [Call (FilesGet name)]) with 0. lia.
Qed.

(** X7. [upload_file] can hang. On a service that keeps answering
    [PROCESSING], the wait that follows the upload has not ended after any
    number of turns, however large: every turn sleeps 2 units and asks
    again. *)
Theorem processing_never_ends path show (w : World P) h uf r :
  validate_pdf_file (w_fs w) path = inl tt ->
  (_compute_file_hash P path w).1 = Ret h ->
  hash_matches (w_tracked w) (fs_resolve (w_fs w) path) h = false ->
  files_upload P path (w_remote w) = (inr uf, r) ->
  is_Some (attrs uf !! "name") ->
  processing (initial_state uf) = true ->
  (forall name r, exists o r',
      files_get P name r = (inr o, r') /\ is_Some (attrs o !! "name")
      /\ processing (polled_state o) = true) ->
  forall fuel,
    (upload_file P fuel path show w).1 = Diverge
    /\ total_sleep (w_trace (upload_file P fuel path show w).2)
       = total_sleep (w_trace w) + 2 * Z.of_nat fuel.
Proof.
  intros Hv Hh Hm Hup Hname Hinit Hstuck fuel.
  rewrite (upload_file_fresh _ _ _ _ _ Hv Hh Hm).
  assert (Heq : exists w1,
    upload_and_wait P fuel path show w = wait_processed P fuel uf (initial_state uf) w1
    /\ w_trace w1 = w_trace w ++ [Log INFO ("Uploading file: " +:+ path_name path);
                                  Call (FilesUpload path);
                                  Log INFO "Waiting for file to be processed..."]).
  { unfold upload_and_wait. erewrite bind_run by reflexivity.
    rewrite client_upload_call.
    erewrite bind_run by (unfold call; cbn; rewrite Hup; reflexivity).
    erewrite bind_run by reflexivity.
    eexists. split; [reflexivity|]. cbn. by rewrite <- !app_assoc. }
  destruct Heq as (w1 & Heq & Hw1).
  unfold try_except, upload_body, bind. rewrite Heq.
  destruct (wait_processed_stuck Hstuck fuel uf (initial_state uf) w1 Hname Hinit)
    as (Hd & t & Ht & Hs).
  destruct (wait_processed P fuel uf (initial_state uf) w1) as [[x|e|] w2];
    try discriminate.
  cbn [fst snd] in *. split; [done|]. rewrite Ht, Hw1.
  rewrite !total_sleep_app, Hs.
  match goal with |- _ + total_sleep ?l + _ = _ => change (total_sleep l) with 0 end.
  lia.
Qed.

(** The answer from the store reads the world and leaves it alone. *)
Lemma app_hash_free file_key (w : World P) :
  ((let! name := tracked_field P file_key "name" in
    let! uri := tracked_field P file_key "uri" in
    ret (Some {| r_name := name; r_uri := uri |})) w).2 = w.
Proof.
  unfold bind, tracked_field, get, ret, raise. cbn.
  destruct (w_tracked w !! file_key) as [e|] eqn:He; [|done].
  destruct (e !! "name"); [|done]. cbn. rewrite He. by destruct (e !! "uri").
Qed.

Lemma local_no_uploads t : Forall local t -> count_uploads t = 0%nat.
Proof.
  unfold count_uploads. induction 1 as [|ev t Hev _ IH]; [done|].
  cbn. by destruct ev as [[]| | |].
Qed.

(** One call sends at most one upload. *)
Lemma upload_file_uploads fuel path show (w : World P) t :
  w_trace (upload_file P fuel path show w).2 = w_trace w ++ t ->
  (count_uploads t <= 1)%nat.
Proof.
  intros Ht.
  destruct (validate_pdf_file (w_fs w) path) as [[]|reason] eqn:Hv.
  2:{ rewrite (upload_file_invalid _ _ _ _ _ Hv) in Ht. cbn in Ht.
      apply app_inv_head in Ht as <-. cbn. lia. }
  destruct (_compute_file_hash P path w).1 as [h|e'|] eqn:Hh.
  2:{ rewrite (upload_file_hash_error _ _ _ _ _ Hv Hh) in Ht. cbn in Ht.
      rewrite <- (app_nil_r (w_trace w)) in Ht at 1.
      apply app_inv_head in Ht as <-. cbn. lia. }
  2:{ by destruct (compute_file_hash_total path w). }
  destruct (hash_matches (w_tracked w) (fs_resolve (w_fs w) path) h) eqn:Hm.
  - rewrite (upload_file_cached _ _ _ _ _ Hv Hh Hm) in Ht.
    match type of Ht with w_trace (?m ?w1).2 = _ =>
      assert (Hpure : (m w1).2 = w1)
    end.
    { apply app_hash_free. }
    rewrite Hpure in Ht. cbn in Ht. apply app_inv_head in Ht as <-. cbn. lia.
  - destruct (upload_file_fresh_trace fuel path show w h Hv Hh Hm) as (t' & Ht' & Hq').
    rewrite Ht in Ht'. apply app_inv_head in Ht' as ->.
    change (count_uploads (Log INFO ("Uploading file: " +:+ path_name path)
                           :: Call (FilesUpload path) :: t'))
      with (Datatypes.S (count_uploads t')).
    by rewrite (quiet_no_uploads _ Hq').
Qed.


(** What a returned result did to the tracking store: nothing, or one
    entry written under the resolved path. *)
Lemma upload_file_tracked fuel path show (w w' : World P) r :
  upload_file P fuel path show w = (Ret (Some r), w') ->
  w_tracked w' = w_tracked w
  \/ exists e, w_tracked w' = <[fs_resolve (w_fs w) path := e]> (w_tracked w).
Proof.
  intros H.
  destruct (validate_pdf_file (w_fs w) path) as [[]|reason] eqn:Hv.
  2:{ rewrite (upload_file_invalid _ _ _ _ _ Hv) in H. discriminate. }
  destruct (_compute_file_hash P path w).1 as [h|e|] eqn:Hh.
  2:{ rewrite (upload_file_hash_error _ _ _ _ _ Hv Hh) in H. discriminate. }
  2:{ by destruct (compute_file_hash_total path w). }
  destruct (hash_matches (w_tracked w) (fs_resolve (w_fs w) path) h) eqn:Hm.
  - left. rewrite (upload_file_cached _ _ _ _ _ Hv Hh Hm) in H.
    match type of H with ?m ?w1 = _ =>
      pose proof (app_hash_free (fs_resolve (w_fs w) path) w1) as Hpure end.
    rewrite H in Hpure. cbn in Hpure. by subst w'.
  - right. rewrite (upload_file_fresh _ _ _ _ _ Hv Hh Hm) in H.
    apply try_except_inv in H as [H|(e & w1 & _ & H)].
    2:{ unfold bind, log, emit, ret in H. discriminate. }
    unfold upload_body in H.
    apply bind_inv in H as ([uf st] & w1 & Hup & H). cbn [fst snd] in H.
    pose proof (upload_and_wait_trace fuel path show w) as Hw. cbn zeta in Hw.
    rewrite Hup in Hw. cbn [snd] in Hw.
    destruct Hw as (Hfs & _ & _ & _ & Htr & _).
    apply conclude_upload_returns in H as (h' & store_name & _ & _ & Htracked).
    rewrite Hfs, Htr in Htracked. eauto.
Qed.

End with_platform.
End upload_more.

(** ** The rest of the file manager *)

Module rest_facts.
Import file_manager validators monad_facts file_manager_facts file_manager_rest
  more_vocabulary upload_more.

Section with_platform.
Context {P : Platform}.

Lemma list_files_run (w : World P) :
  list_files P w =
    (Ret (map (fun kv => describe kv.1 kv.2) (map_to_list (w_tracked w))), w).
Proof. reflexivity. Qed.

Lemma get_file_count_run (w : World P) :
  agent.get_file_count P w = (Ret (Z.of_nat (size (w_tracked w))), w).
Proof.
  unfold agent.get_file_count. erewrite bind_run by apply list_files_run.
  unfold ret. by rewrite length_map, length_map_to_list.
Qed.

(** X9. After an upload that returned a result, the number of files the
    agent reports is the number of paths tracked before it, plus one when
    the resolved path was not among them: a path that was tracked is not
    counted twice, whether the answer came from the store or the entry was
    replaced by a new upload. *)
Theorem upload_file_count fuel path show (w w' : World P) r :
  upload_file P fuel path show w = (Ret (Some r), w') ->
  (agent.get_file_count P w').1 =
    Ret (Z.of_nat (size (w_tracked w))
         + (if decide (is_Some (w_tracked w !! fs_resolve (w_fs w) path)) then 0 else 1)).
Proof.
  intros H. rewrite get_file_count_run. cbn [fst]. f_equal.
  pose proof H as Hret. apply upload_file_returns in Hret as (e & h & _ & _ & He & _).
  apply upload_file_tracked in H as [Hsame|[e' Hins]].
  - rewrite Hsame in *. rewrite decide_True by eauto. lia.
  - rewrite Hins, map_size_insert.
    destruct (w_tracked w !! fs_resolve (w_fs w) path) eqn:Hl.
    + rewrite decide_True by eauto. cbn. lia.
    + rewrite decide_False by (by intros [? ?]). cbn. lia.
Qed.

Lemma clear_cache_done (w : World P) :
  w_disk w = TFMissing \/ w_cache_writable w = true ->
  clear_cache P w =
    (Ret true,
     with_trace (with_tracked (with_disk w TFMissing) ∅)
       (w_trace w ++ [Log INFO "File tracking cache cleared"])).
Proof.
  intros H. unfold clear_cache, try_except, bind at 1, get. cbn.
  destruct (w_disk w) as [|r d] eqn:Hd.
  - unfold bind, ret, reset_tracked, log, emit. destruct w; cbn in *. by subst.
  - destruct H as [|Hw]; [done|].
    unfold bind, unlink_tracking, reset_tracked, log, emit, ret. by rewrite Hw.
Qed.

Lemma clear_cache_refused (w : World P) r d :
  w_disk w = TFContent r d -> w_cache_writable w = false ->
  clear_cache P w =
    (Ret false,
     with_trace w (w_trace w ++ [Log ERROR "Failed to clear cache: file_tracking.json"])).
Proof.
  intros Hd Hw. unfold clear_cache, try_except, bind at 1, get. cbn. rewrite Hd.
  unfold bind, unlink_tracking, log, emit, ret. by rewrite Hw.
Qed.

(** X10. [clear_cache] answers [False] exactly when the tracking file
    exists and cannot be deleted, and then it leaves the store in memory
    and the file as they are. Otherwise it answers [True], the store is
    empty, the file is gone, no file is listed and no path counts as
    tracked any more. It never raises. *)
Theorem clear_cache_spec (w : World P) :
  let run := clear_cache P w in
  (run.1 = Ret false <->
     (exists r d, w_disk w = TFContent r d) /\ w_cache_writable w = false)
  /\ (run.1 = Ret false ->
      w_tracked run.2 = w_tracked w /\ w_disk run.2 = w_disk w)
  /\ (run.1 <> Ret false ->
      run.1 = Ret true
      /\ w_tracked run.2 = ∅ /\ w_disk run.2 = TFMissing
      /\ (list_files P run.2).1 = Ret []
      /\ forall path, (_is_file_tracked P path run.2).1 <> Ret true).
Proof.
  cbn zeta.
  assert (Hempty : forall w1 : World P, w_tracked w1 = ∅ ->
            (list_files P w1).1 = Ret []
            /\ forall path, (_is_file_tracked P path w1).1 <> Ret true).
  { intros w1 Hw1. split.
    - by rewrite list_files_run, Hw1, map_to_list_empty.
    - intros path. unfold _is_file_tracked, bind. rewrite compute_file_hash_eq.
      destruct (_compute_file_hash P path w1).1; [|done..].
      unfold get, ret. cbn. by rewrite Hw1, lookup_empty. }
  destruct (w_disk w) as [|r d] eqn:Hd.
  - rewrite (clear_cache_done w) by auto.
    split; [split; [done|by intros [(? & ? & ?) _]]|].
    split; [done|]. intros _. repeat split; by apply Hempty.
  - destruct (w_cache_writable w) eqn:Hw.
    + rewrite (clear_cache_done w) by auto.
      split; [split; [done|by intros [_ ?]]|].
      split; [done|]. intros _. repeat split; by apply Hempty.
    + rewrite (clear_cache_refused w r d) by done.
      split; [split; [eauto|done]|]. split; [done|]. by intros [].
Qed.

(** X11. [get_file_uris] returns normally and changes nothing; a value is
    in its list exactly when it is truthy and some tracked entry records it
    under ['uri']: [None], an empty string and a missing key are left
    out. *)
Theorem get_file_uris_spec (w : World P) :
  exists uris,
    get_file_uris P w = (Ret uris, w)
    /\ forall v, v ∈ uris <->
         truthy v = true
         /\ exists k e, w_tracked w !! k = Some e /\ e !! "uri" = Some v.
Proof.
  eexists. split; [reflexivity|]. intros v.
  rewrite list_elem_of_omap. split.
  - intros ([k e] & Hin & Hsome). apply elem_of_map_to_list in Hin. cbn in Hsome.
    destruct (e !! "uri") as [u|] eqn:Hu; cbn in Hsome; [|discriminate].
    destruct (truthy u) eqn:Ht; [|discriminate]. injection Hsome as <-. eauto.
  - intros (Ht & k & e & Hk & Hu). exists (k, e). split.
    + by apply elem_of_map_to_list.
    + cbn. rewrite Hu. cbn. by rewrite Ht.
Qed.


(** A save that fails is silent: with a cache directory that cannot be
    written, [_save_tracking] returns normally, logs one error, and the
    tracking file and the store in memory stay as they were. *)
Lemma save_tracking_unwritable (w : World P) :
  w_cache_writable w = false ->
  _save_tracking P w =
    (Ret tt, with_trace w (w_trace w ++ [Log ERROR "Failed to save tracking file"])).
Proof. intros Hw. unfold _save_tracking, bind, get. cbn. by rewrite Hw. Qed.

End with_platform.
End rest_facts.

(** ** The agent *)

Module agent_facts.
Import file_manager validators monad_facts file_manager_facts more_vocabulary
  upload_more.

Section with_platform.
Context {P : Platform}.

(** An exception leaves [upload_file] before anything is recorded. *)
Lemma upload_file_raise_tracked fuel path show (w w1 : World P) e :
  upload_file P fuel path show w = (Raise e, w1) ->
  w_tracked w1 = w_tracked w /\ w_remote w1 = w_remote w.
Proof.
  intros H.
  destruct (validate_pdf_file (w_fs w) path) as [[]|reason] eqn:Hv.
  2:{ rewrite (upload_file_invalid _ _ _ _ _ Hv) in H. discriminate. }
  destruct (_compute_file_hash P path w).1 as [h|e'|] eqn:Hh.
  2:{ rewrite (upload_file_hash_error _ _ _ _ _ Hv Hh) in H. by injection H as _ <-. }
  2:{ by destruct (compute_file_hash_total path w). }
  destruct (hash_matches (w_tracked w) (fs_resolve (w_fs w) path) h) eqn:Hm.
  - rewrite (upload_file_cached _ _ _ _ _ Hv Hh Hm) in H.
    match type of H with ?m ?w0 = _ =>
      pose proof (app_hash_free (fs_resolve (w_fs w) path) w0) as Hpure end.
    rewrite H in Hpure. cbn in Hpure. by subst w1.
  - rewrite (upload_file_fresh _ _ _ _ _ Hv Hh Hm) in H. unfold try_except in H.
    destruct (upload_body P fuel path show w) as [[x|e'|] w2]; try discriminate.
Qed.

(** X13. The facade is the error boundary of uploads. [upload_file] of
    the agent never raises: what the file manager returns it returns, and an
    exception that leaves the file manager (a file that cannot be opened,
    an entry without a name) is logged and answered with [None], the
    tracking store untouched. *)
Theorem agent_upload_file_safe fuel path show (w : World P) :
  (forall e, (agent.upload_file P fuel path show w).1 <> Raise e)
  /\ (forall x w1,
        upload_file P fuel path show w = (Ret x, w1) ->
        agent.upload_file P fuel path show w = (Ret x, w1))
  /\ (forall e w1,
        upload_file P fuel path show w = (Raise e, w1) ->
        agent.upload_file P fuel path show w =
          (Ret None,
           with_trace w1 (w_trace w1 ++ [Log ERROR ("Error uploading file: " +:+ exn_msg e)]))
        /\ w_tracked w1 = w_tracked w).
Proof.
  unfold agent.upload_file, try_except.
  destruct (upload_file P fuel path show w) as [[x|e|] w1] eqn:Hup.
  - split; [done|]. split; [by intros ? ? [= <- <-]|]. by intros ? ? [=].
  - split; [done|]. split; [by intros ? ? [=]|].
    intros e' w1' [= <- <-]. split; [done|].
    by apply upload_file_raise_tracked in Hup as [? _].
  - split; [done|]. split; by intros ? ? [=].
Qed.

Lemma upload_each_app fuel show pre : forall rest acc rs (w w1 : World P),
  batch fuel show w pre rs w1 ->
  upload_each P fuel show (pre ++ rest) acc w =
    upload_each P fuel show rest (acc ++ rs) w1.
Proof.
  induction pre as [|f pre IH]; intros rest acc rs w w1 Hb.
  - inversion Hb; subst. cbn. by rewrite app_nil_r.
  - inversion Hb as [|? w0 ? ? ? o rs1 Hup Hb1]; subst.
    cbn [app upload_each]. erewrite bind_run by exact Hup.
    rewrite (IH rest _ rs1 w0 w1 Hb1). f_equal.
    destruct o; cbn; by rewrite <- ?app_assoc.
Qed.

(** X14. A batch that is cut short reports nothing. When the files
    before [f] have been uploaded (with results [rs]) and [upload_file]
    raises on [f], [upload_directory] of the agent returns the empty list:
    the uploads already made stay in the tracking store, the files after
    [f] are not tried, and [rs] is lost to the caller. *)
Theorem agent_upload_directory_cut fuel dir show (w w1 w2 : World P) pre f post rs e :
  validate_directory (w_fs w) dir = inl tt ->
  glob_pdf (w_fs w) dir = pre ++ f :: post ->
  batch fuel show
    (with_trace w (w_trace w ++
       [Log INFO ("Found " +:+ pretty (length (pre ++ f :: post))
                  +:+ " PDF file(s) in " +:+ dir)]))
    pre rs w1 ->
  upload_file P fuel f show w1 = (Raise e, w2) ->
  agent.upload_directory P fuel dir show w =
    (Ret [],
     with_trace w2 (w_trace w2 ++ [Log ERROR ("Error uploading directory: " +:+ exn_msg e)]))
  /\ w_tracked w2 = w_tracked w1 /\ w_remote w2 = w_remote w1.
Proof.
  intros Hv Hg Hb Hup.
  split; [|by apply upload_file_raise_tracked in Hup].
  unfold agent.upload_directory, try_except.
  assert (Hdir : upload_directory P fuel dir show w = (Raise e, w2)).
  { assert (Hne : exists g gs, pre ++ f :: post = g :: gs) by (destruct pre; eauto).
    destruct Hne as (g & gs & Hl).
    unfold upload_directory, bind at 1, get. cbn. rewrite Hv, Hg, Hl. rewrite <- Hl.
    erewrite bind_run by reflexivity.
    erewrite bind_raise; [reflexivity|].
    rewrite (upload_each_app _ _ _ _ _ _ _ _ Hb).
    by apply upload_each_abort. }
  by rewrite Hdir.
Qed.

End with_platform.

Section asking.
Context {S D : Type}.
Context (ask_question : string -> option string -> S -> (exn + string) * S).
Context (default_delay : D).

Lemma asked_app (t1 t2 : list (@agent.event D)) :
  agent.asked (t1 ++ t2) = (agent.asked t1 + agent.asked t2)%nat.
Proof. unfold agent.asked. by rewrite List.filter_app, length_app. Qed.

Lemma asked_rag (t : list (@rag_handler.event D)) :
  agent.asked (map agent.Rag t) = rag_handler.count_asked t.
Proof.
  unfold agent.asked, rag_handler.count_asked.
  induction t as [|ev t IH]; [done|]. cbn. destruct ev; cbn; congruence.
Qed.

(** X15. When every attempt fails, the agent answers with the text of the
    failure instead of raising: with [max_retries >= 1] the model is asked
    exactly [max_retries] times and the answer is the fixed error text
    followed by "Failed to get response after [max_retries] attempts". *)
Theorem agent_ask_exhausted name question max_retries (s : S) :
  1 <= max_retries ->
  (forall i, (i < Z.to_nat max_retries)%nat ->
     exists e, rag_handler.attempt_result ask_question question name s i = inl e) ->
  let run := agent.ask ask_question default_delay (inr name) question true max_retries s in
  run.1.1 = "Error: Failed to generate response. "
            +:+ rag_handler.failure_message max_retries
  /\ run.1.2 = rag_handler.state_before ask_question question name s (Z.to_nat max_retries)
  /\ agent.asked run.2 = Z.to_nat max_retries.
Proof.
  intros Hmax Hfail run. subst run. unfold agent.ask, rag_handler.ask_with_retry.
  rewrite (rag_facts.loop_all_fail ask_question question name max_retries default_delay)
    by (rewrite length_seqZ; done).
  rewrite length_seqZ. cbn [fst snd app].
  destruct (Z.to_nat max_retries) as [|m] eqn:Hm; [lia|].
  destruct (Hfail m) as [e He]; [lia|].
  cbn [rag_handler.last_failure]. rewrite He. cbn [raise_from].
  split; [done|]. split; [done|].
  rewrite !asked_app, asked_rag, rag_facts.count_asked_failed, length_seqZ, Hm.
  destruct name as [[|c n]|]; cbn; lia.
Qed.

(** X16. The agent asks nothing when it cannot: if the name of the store
    cannot be read, or [max_retries] is not positive, the answer is an
    error text and the model is left as it was; without retry the model is
    asked exactly once. *)
Theorem agent_ask_bounds question max_retries (s : S) :
  (forall e use_retry,
     agent.ask ask_question default_delay (inl e) question use_retry max_retries s =
       ("Error: Failed to generate response. " +:+ exn_msg e, s,
        [agent.AnswerErrored (exn_msg e)]))
  /\ (forall name,
        max_retries <= 0 ->
        let run := agent.ask ask_question default_delay (inr name) question true
                     max_retries s in
        run.1.1 = "Error: Failed to generate response. "
                  +:+ rag_handler.failure_message max_retries
        /\ run.1.2 = s /\ agent.asked run.2 = 0%nat)
  /\ (forall name,
        let run := agent.ask ask_question default_delay (inr name) question false
                     max_retries s in
        agent.asked run.2 = 1%nat
        /\ run.1.2 = snd (ask_question question name s)
        /\ run.1.1 = match fst (ask_question question name s) with
                     | inr answer => answer
                     | inl e => "Error: Failed to generate response. " +:+ exn_msg e
                     end).
Proof.
  split; [done|]. split.
  - intros name Hmax. cbn zeta. unfold agent.ask, rag_handler.ask_with_retry.
    rewrite seqZ_nil by done. cbn.
    repeat split; by destruct name as [[|c n]|].
  - intros name. cbn zeta. unfold agent.ask.
    destruct (ask_question question name s) as [[e|a] s'];
      cbn; repeat split; by destruct name as [[|c n]|].
Qed.

End asking.
End agent_facts.

(** ** Configuration *)

Module settings_facts.
Import settings.

(** X17. A key read from the environment is never empty, so
    [Settings.validate] never reports it as not set: it accepts the key
    exactly when it has ten characters or more, and otherwise says it is
    too short. A variable that is unset or empty is refused when read. *)
Theorem required_key_validate (env : gmap string string) (key : string) :
  ((exists msg, _get_required_env env key = ValueError msg) <->
     env !! key = None \/ env !! key = Some "")
  /\ forall v,
       _get_required_env env key = Ok v ->
       env !! key = Some v /\ v <> ""
       /\ (validate v = (true, None) <-> (10 <= String.length v)%nat)
       /\ (validate v = (false, Some "GEMINI_API_KEY appears to be invalid (too short)")
           <-> (String.length v < 10)%nat).
Proof.
  unfold _get_required_env. destruct (env !! key) as [v|] eqn:He.
  - destruct (String.eqb_spec v "") as [->|Hne].
    + split; [split; eauto|]. by intros v [=].
    + split.
      * split; [by intros [? [=]]|]. intros [[=]|[= ->]]. done.
      * intros v' [= <-]. split; [done|]. split; [done|]. unfold validate.
        destruct (String.eqb_spec v "") as [|_]; [done|].
        destruct (Nat.ltb_spec (String.length v) 10); split; split;
          intros; try discriminate; try lia; done.
  - split; [split; eauto|]. by intros v [=].
Qed.

(** X18. The configuration check of the agent looks at the key of the
    settings only. A key passed to the agent does not rescue settings whose
    key is too short, and is not itself checked: it is used as it is when
    it is not empty, and the key of the settings is used otherwise. *)
Theorem configure_spec (api_key : option string) (settings_key : string) :
  ((exists msg, agent.configure api_key settings_key = ValueError msg) <->
     (String.length settings_key < 10)%nat)
  /\ forall k,
       agent.configure api_key settings_key = Ok k ->
       k = match api_key with
           | Some a => if String.eqb a "" then settings_key else a
           | None => settings_key
           end.
Proof.
  unfold agent.configure, validate.
  destruct (String.eqb_spec settings_key "") as [->|Hne].
  - split; [split; [cbn; lia|eauto]|]. by intros k [=].
  - destruct (Nat.ltb_spec (String.length settings_key) 10).
    + split; [split; eauto|]. by intros k [=].
    + split; [split; [by intros [? [=]]|lia]|]. by intros k [= <-].
Qed.

End settings_facts.

(** ** The store handle *)

Module store_init_facts.
Import store_init.

Section with_service.
Context {R : Type} (svc : StoreService R).

Lemma scan_stores_skip store_name pre : forall rest (st : state (R:=R)),
  no_match store_name pre ->
  scan_stores store_name (pre ++ rest) st = scan_stores store_name rest st.
Proof.
  induction pre as [|s pre IH]; intros rest st Hno; [done|].
  inversion Hno as [|? ? [Hd Hn] Hrest]; subst.
  cbn [app scan_stores]. rewrite Hd, Hn. by apply IH.
Qed.

(** X19. An existing store is reused. If the stores can be listed and the
    first one that matches the configured name (by display name, or by
    containing it in its name) has a name, it becomes the store handle:
    the only call made is the listing, so nothing is created. *)
Theorem initialize_reuses_listed store_name (st : state) pre s post r n :
  has_list svc = true ->
  stores_list svc (remote st) = (inr (pre ++ s :: post), r) ->
  no_match store_name pre ->
  matches_display_name store_name s = true \/ matches_name store_name s = true ->
  attrs s !! "name" = Some n ->
  _initialize_file_search_store svc store_name st =
    (inr tt,
     {| remote := r; store := Some s;
        trace := trace st ++
          [Listed;
           Logged INFO ("Using existing File Search Store: " +:+ store_name
                        +:+ " (name: " +:+ py_str n +:+ ")")] |}).
Proof.
  intros Hlist Hstores Hno Hmatch Hname.
  unfold _initialize_file_search_store, find_existing, try_except, bind at 1.
  rewrite Hlist. unfold bind at 1, call. rewrite Hstores.
  rewrite scan_stores_skip by done. cbn [scan_stores].
  destruct (matches_display_name store_name s) eqn:Hd.
  - unfold bind, set_store, attr, log, emit, ret. rewrite Hname. cbn.
    by rewrite <- app_assoc.
  - destruct Hmatch as [|Hn]; [done|]. rewrite Hn.
    unfold bind, set_store, attr, log, emit, ret. rewrite Hname. cbn.
    by rewrite <- app_assoc.
Qed.

(** X20. Initialisation never raises, and it gives up cleanly. Whatever
    the service does, [_initialize_file_search_store] returns normally.
    When no store was found, creation raises or returns a store without a
    name, and [get] is missing from the SDK or raises too, the manager is
    left without a store handle. *)
Theorem initialize_degrades store_name (st : state) :
  (_initialize_file_search_store svc store_name st).1 = inr tt
  /\ forall st1,
       find_existing svc store_name st = (inr false, st1) ->
       (exists e r, stores_create svc store_name (remote st1) = (inl e, r))
       \/ (exists s r, stores_create svc store_name (remote st1) = (inr s, r)
                       /\ attrs s !! "name" = None) ->
       has_get svc = false \/ (forall r, exists e r', stores_get svc store_name r = (inl e, r')) ->
       store (_initialize_file_search_store svc store_name st).2 = None.
Proof.
  split.
  - unfold _initialize_file_search_store, try_except.
    match goal with |- context [bind ?m ?f st] => by destruct (bind m f st) as [[e|[]] st'] end.
  - intros st1 Hfind Hcreate Hget.
    unfold _initialize_file_search_store, try_except, bind at 1. rewrite Hfind.
    unfold create_or_get, try_except, bind at 1, log, emit. cbn.
    destruct Hcreate as [(e & r & Hc)|(s & r & Hc & Hs)].
    + unfold bind at 1, call. cbn. rewrite Hc. cbn.
      destruct Hget as [Hg|Hg].
      * rewrite Hg. reflexivity.
      * destruct (has_get svc); [|reflexivity].
        unfold bind at 1, call. cbn.
        match goal with |- context [stores_get svc store_name ?r0] =>
          destruct (Hg r0) as (e' & r' & ->) end.
        reflexivity.
    + unfold bind at 1, call. cbn. rewrite Hc. cbn.
      unfold attr. rewrite Hs. cbn.
      destruct Hget as [Hg|Hg].
      * rewrite Hg. reflexivity.
      * destruct (has_get svc); [|reflexivity].
        unfold bind at 1, call. cbn.
        match goal with |- context [stores_get svc store_name ?r0] =>
          destruct (Hg r0) as (e' & r' & ->) end.
        reflexivity.
Qed.

End with_service.
End store_init_facts.

(** ** Uploads as the other methods see them *)

Module composition_facts.
Import file_manager validators monad_facts file_manager_facts file_manager_rest
  more_vocabulary upload_more.

Section with_platform.
Context {P : Platform}.

(** X21. What [upload_file] returns is what the other methods then show:
    after a call that returned a result, [list_files] has an entry with the
    name and the URI returned, and [get_file_uris] has the URI whenever it
    is truthy. *)
Theorem upload_file_listed fuel path show (w w' : World P) r :
  upload_file P fuel path show w = (Ret (Some r), w') ->
  (exists infos info,
      list_files P w' = (Ret infos, w') /\ info ∈ infos
      /\ fi_name info = r_name r /\ fi_uri info = r_uri r)
  /\ (truthy (r_uri r) = true ->
      exists uris, get_file_uris P w' = (Ret uris, w') /\ r_uri r ∈ uris).
Proof.
  intros H. apply upload_file_returns in H as (e & h & _ & _ & He & _ & Hn & Hu).
  split.
  - eexists _, (describe (fs_resolve (w_fs w) path) e).
    split; [reflexivity|]. split.
    + apply list_elem_of_fmap. exists (fs_resolve (w_fs w) path, e).
      split; [done|]. by apply elem_of_map_to_list.
    + unfold describe. cbn. by rewrite Hn, Hu.
  - intros Ht. eexists. split; [reflexivity|].
    apply list_elem_of_omap. exists (fs_resolve (w_fs w) path, e). split.
    + by apply elem_of_map_to_list.
    + cbn. rewrite Hu. cbn. by rewrite Ht.
Qed.




Lemma batch_bounds fuel show files : forall (w w' : World P) rs,
  batch fuel show w files rs w' ->
  (length rs <= length files)%nat
  /\ exists t, w_trace w' = w_trace w ++ t
               /\ (count_uploads t <= length files)%nat.
Proof.
  induction files as [|f rest IH]; intros w w' rs Hb.
  - inversion Hb; subst. split; [done|]. exists []. by rewrite app_nil_r.
  - inversion Hb as [|? w1 ? ? ? o rs1 Hup Hb1]; subst.
    destruct (IH _ _ _ Hb1) as (Hlen & t1 & Ht1 & Hc1).
    destruct (reaches_upload_file fuel f show w) as (_ & _ & _ & _ & t0 & Ht0 & _).
    pose proof (upload_file_uploads fuel f show w t0 Ht0) as Hc0.
    rewrite Hup in Ht0. cbn [snd] in Ht0.
    split.
    + rewrite length_app. cbn [length]. destruct o; cbn; lia.
    + exists (t0 ++ t1). split; [rewrite Ht1, Ht0; by rewrite app_assoc|].
      rewrite count_uploads_app. cbn [length]. lia.
Qed.

(** X23. [upload_directory] sends at most one upload for each [*.pdf]
    entry of the directory and returns at most as many results, also for a
    directory that is refused or holds no PDF file. *)
Theorem upload_directory_bounds fuel dir show (w w' : World P) rs :
  upload_directory P fuel dir show w = (Ret rs, w') ->
  (length rs <= length (glob_pdf (w_fs w) dir))%nat
  /\ exists t, w_trace w' = w_trace w ++ t
               /\ (count_uploads t <= length (glob_pdf (w_fs w) dir))%nat.
Proof.
  intros H.
  destruct (validate_directory (w_fs w) dir) as [[]|reason] eqn:Hv.
  2:{ rewrite (upload_directory_invalid _ _ _ _ _ Hv) in H. injection H as <- <-.
      split; [cbn; lia|]. eexists [_]. split; [done|]. cbn. lia. }
  destruct (glob_pdf (w_fs w) dir) as [|f rest] eqn:Hg.
  { rewrite (upload_directory_empty _ _ _ _ Hv Hg) in H. injection H as <- <-.
    split; [done|]. eexists [_]. split; [done|]. cbn. lia. }
  rewrite <- Hg in *.
  apply upload_directory_returns in H as (w1 & Hb & ->); [|done|by rewrite Hg].
  apply batch_bounds in Hb as (Hlen & t & Ht & Hc). split; [done|].
  cbn in Ht. cbn. rewrite Ht. eexists (_ :: t ++ [_]).
  split; [by rewrite <- !app_assoc|].
  change (count_uploads (?e :: t ++ ?l)) with (count_uploads (t ++ l)).
  rewrite count_uploads_app. cbn. lia.
Qed.

End with_platform.
End composition_facts.

(** ** The enumeration and the validator *)

Module glob_facts.
Import file_manager validators.

Lemma append_cons c (a b : string) : String c a +:+ b = String c (a +:+ b).
Proof. reflexivity. Qed.

Lemma append_nil (b : string) : "" +:+ b = b.
Proof. reflexivity. Qed.

Lemma length_append (a b : string) :
  String.length (a +:+ b) = (String.length a + String.length b)%nat.
Proof.
  induction a as [|c a IH]; [done|].
  rewrite append_cons. cbn [String.length]. by rewrite IH.
Qed.

Lemma append_assoc (a b c : string) : (a +:+ b) +:+ c = a +:+ (b +:+ c).
Proof.
  induction a as [|x a IH]; [done|]. rewrite !append_cons. by rewrite IH.
Qed.

Lemma substring_all (s : string) : substring 0 (String.length s) s = s.
Proof. induction s as [|c s IH]; [done|]. cbn. by rewrite IH. Qed.

Lemma substring_skip (a b : string) n :
  substring (String.length a) n (a +:+ b) = substring 0 n b.
Proof.
  induction a as [|c a IH]; [done|]. rewrite append_cons. cbn. exact IH.
Qed.

Lemma str_from_append (a b : string) : str_from (str_len a) (a +:+ b) = b.
Proof.
  unfold str_from, str_len. rewrite Nat2Z.id, length_append, substring_skip.
  replace (String.length a + String.length b - String.length a)%nat
    with (String.length b) by lia.
  apply substring_all.
Qed.

Lemma substring_split (s : string) : forall n,
  (n <= String.length s)%nat ->
  s = substring 0 n s +:+ substring n (String.length s - n) s.
Proof.
  induction s as [|c s IH]; intros [|n] Hn; cbn in *; try lia; try done.
  - rewrite append_nil. by rewrite substring_all.
  - rewrite append_cons. f_equal. apply IH. lia.
Qed.

Lemma endswith_split (s t : string) :
  endswith s t = true -> exists stem, s = stem +:+ t.
Proof.
  unfold endswith, str_from, str_len. intros [Hlen Heq]%andb_true_iff.
  apply Nat.leb_le in Hlen. apply String.eqb_eq in Heq.
  exists (substring 0 (String.length s - String.length t) s).
  replace (Z.to_nat (Z.of_nat (String.length s) - Z.of_nat (String.length t)))
    with (String.length s - String.length t)%nat in Heq by lia.
  pose proof (substring_split s (String.length s - String.length t)) as Hs.
  rewrite Heq in Hs. apply Hs. lia.
Qed.

Lemma rfind_sep_range (s : string) : rfind_sep s = -1 \/ 0 <= rfind_sep s.
Proof.
  induction s as [|c s IH]; cbn; [by left|].
  destruct (Z.leb_spec 0 (rfind_sep s)); [right; lia|].
  destruct (Ascii.eqb c "/"); [by right|by left].
Qed.

Lemma rfind_dot_range (s : string) : rfind_dot s = -1 \/ 0 <= rfind_dot s.
Proof.
  induction s as [|c s IH]; cbn; [by left|].
  destruct (Z.leb_spec 0 (rfind_dot s)); [right; lia|].
  destruct (Ascii.eqb c "."); [by right|by left].
Qed.

Lemma rfind_sep_append (a b : string) :
  rfind_sep (a +:+ b) =
    if 0 <=? rfind_sep b then str_len a + rfind_sep b else rfind_sep a.
Proof.
  unfold str_len. induction a as [|c a IH].
  - rewrite append_nil. cbn [rfind_sep String.length].
    destruct (Z.leb_spec 0 (rfind_sep b)); [done|].
    destruct (rfind_sep_range b); lia.
  - rewrite append_cons. cbn [rfind_sep String.length]. rewrite IH.
    destruct (Z.leb_spec 0 (rfind_sep b)); [|done].
    rewrite (proj2 (Z.leb_le 0 _)) by lia. lia.
Qed.

Lemma rfind_dot_append (a b : string) :
  rfind_dot (a +:+ b) =
    if 0 <=? rfind_dot b then str_len a + rfind_dot b else rfind_dot a.
Proof.
  unfold str_len. induction a as [|c a IH].
  - rewrite append_nil. cbn [rfind_dot String.length].
    destruct (Z.leb_spec 0 (rfind_dot b)); [done|].
    destruct (rfind_dot_range b); lia.
  - rewrite append_cons. cbn [rfind_dot String.length]. rewrite IH.
    destruct (Z.leb_spec 0 (rfind_dot b)); [|done].
    rewrite (proj2 (Z.leb_le 0 _)) by lia. lia.
Qed.

(** The final component of [path / name] is [name], for a name without a
    separator. *)
Lemma path_name_joinpath (dir name : string) :
  rfind_sep name = -1 -> path_name (joinpath dir name) = name.
Proof.
  intros Hsep. unfold path_name, joinpath.
  assert (Hr : rfind_sep ("/" +:+ name) = 0).
  { rewrite append_cons, append_nil. cbn [rfind_sep]. by rewrite Hsep. }
  rewrite rfind_sep_append, Hr. cbn [Z.leb Z.compare].
  replace (str_len dir + 0 + 1) with (str_len (dir +:+ "/")).
  - rewrite <- append_assoc. apply str_from_append.
  - unfold str_len. rewrite length_append. cbn. lia.
Qed.

Lemma path_suffix_pdf (dir name : string) :
  rfind_sep name = -1 -> endswith name ".pdf" = true ->
  path_suffix (joinpath dir name) = if String.eqb name ".pdf" then "" else ".pdf".
Proof.
  intros Hsep [stem ->]%endswith_split. unfold path_suffix.
  rewrite path_name_joinpath by done. cbn zeta.
  rewrite rfind_dot_append.
  change (rfind_dot ".pdf") with 0. cbn [Z.leb Z.compare]. rewrite Z.add_0_r.
  rewrite str_from_append.
  assert (Hlen : str_len (stem +:+ ".pdf") = str_len stem + 4).
  { unfold str_len. rewrite length_append. cbn [String.length]. lia. }
  rewrite Hlen. destruct stem as [|c stem]; [done|].
  replace (String.eqb (String c stem +:+ ".pdf") ".pdf") with false.
  - unfold str_len. cbn [String.length].
    rewrite (proj2 (Z.ltb_lt _ _)), (proj2 (Z.ltb_lt _ _)) by lia. done.
  - symmetry. apply String.eqb_neq. intros Heq.
    apply (f_equal String.length) in Heq. rewrite length_append in Heq. cbn in Heq. lia.
Qed.

(** X24. The enumeration and the validator agree but for one name. An
    entry of the directory whose name ends in [.pdf] is handed to
    [upload_file]; when it is a regular file that is not empty,
    [validate_pdf_file] accepts it, unless the name is [.pdf] itself: that
    entry matches [*.pdf] and has no suffix, so it is refused as not a
    PDF. *)
Theorem glob_pdf_validates (fs : FS) dir r names name readable data :
  fs_lookup fs dir = Some (Dir r names) ->
  name ∈ names ->
  rfind_sep name = -1 ->
  endswith name ".pdf" = true ->
  fs_lookup fs (joinpath dir name) = Some (File readable data) ->
  data <> [] ->
  joinpath dir name ∈ glob_pdf fs dir
  /\ validate_pdf_file fs (joinpath dir name) =
       if String.eqb name ".pdf" then inr WrongType else inl tt.
Proof.
  intros Hdir Hin Hsep Hend Hfile Hdata. split.
  - unfold glob_pdf. rewrite Hdir. apply list_elem_of_fmap. exists name.
    split; [done|]. apply list_elem_of_In, List.filter_In. split; [|done].
    by apply list_elem_of_In.
  - unfold validate_pdf_file, path_exists, path_is_file, st_size.
    rewrite Hfile, path_suffix_pdf by done. cbn [negb].
    destruct (String.eqb name ".pdf"); [done|]. cbn.
    destruct data; [done|]. done.
Qed.

End glob_facts.

(** ** The further properties on concrete runs *)

Module more_witnesses.
Import file_manager validators file_manager_rest more_vocabulary examples
  more_examples echo_example.

(** The digest of [docs/a.pdf] under the stand-in hasher, which is
    compositional. *)
Lemma compute_file_hash_whole_witness :
  let w := fresh prompt 0%nat in
  _compute_file_hash prompt "docs/a.pdf" w =
    (Ret (hexdigest prompt (sha256_update prompt (sha256 prompt) pdf_bytes)), w).
Proof.
  intros w.
  apply (hashing_facts.compute_file_hash_whole (P:=prompt) "docs/a.pdf" w pdf_bytes).
  - intros h a b. symmetry. apply app_assoc.
  - intros h. apply app_nil_r.
  - vm_compute. reflexivity.
Defined.

(** An import that is refused: the upload is recorded all the same. *)
Lemma import_error_tolerated_witness :
  let w := fresh no_import 0%nat in
  let run := upload_file no_import 5 "docs/a.pdf" true w in
  run.1 = Ret (Some {| r_name := file_name_of first_file; r_uri := file_uri_of first_file |})
  /\ w_tracked run.2 =
       <[fs_resolve (w_fs w) "docs/a.pdf" :=
           new_entry (file_name_of first_file) (file_uri_of first_file) "%PDF"
             (w_now w) "docs/a.pdf" (PStr "stores/s1")]>
         (w_tracked w)
  /\ Log WARNING ("Failed to import file into store: "
                  +:+ exn_msg (Exn ServiceError "import refused")
                  +:+ ". File uploaded but may not be searchable.") ∈ w_trace run.2.
Proof.
  intros w.
  apply (upload_more.import_error_tolerated (P:=no_import) 5 "docs/a.pdf" true w
           (upload_and_wait no_import 5 "docs/a.pdf" true w).2 "%PDF" first_file
           (PStr "ACTIVE") store_handle (PStr "stores/s1") (PStr "files/0")
           (Exn ServiceError "import refused") 2%nat);
    vm_compute; reflexivity.
Defined.

(** A manager without a store handle. *)
Lemma upload_without_store_witness :
  let w := storeless prompt 0%nat in
  let w1 := (upload_and_wait prompt 5 "docs/a.pdf" true w).2 in
  let run := upload_file prompt 5 "docs/a.pdf" true w in
  run.1 = Ret (Some {| r_name := file_name_of first_file; r_uri := file_uri_of first_file |})
  /\ w_tracked run.2 =
       <[fs_resolve (w_fs w) "docs/a.pdf" :=
           new_entry (file_name_of first_file) (file_uri_of first_file) "%PDF"
             (w_now w) "docs/a.pdf" PNone]>
         (w_tracked w)
  /\ w_remote run.2 = w_remote w1
  /\ exists t, w_trace run.2 = w_trace w1 ++ t /\ Forall local t.
Proof.
  intros w w1.
  apply (upload_more.upload_without_store (P:=prompt) 5 "docs/a.pdf" true w w1 "%PDF"
           first_file (PStr "ACTIVE"));
    vm_compute; reflexivity.
Defined.

(** Processing that ends in failure. *)
Lemma processing_failure_returns_none_witness :
  let w := fresh rejecting 0%nat in
  let w1 := (upload_and_wait rejecting 5 "docs/a.pdf" true w).2 in
  upload_file rejecting 5 "docs/a.pdf" true w =
    (Ret None, with_trace w1 (w_trace w1 ++ [Log ERROR "File processing failed"]))
  /\ w_tracked w1 = w_tracked w /\ w_disk w1 = w_disk w.
Proof.
  intros w w1.
  apply (upload_more.processing_failure_returns_none (P:=rejecting) 5 "docs/a.pdf" true
           w w1 "%PDF"
           (mk_obj "File" [("name", PStr "files/0"); ("state", PStr "FAILED")])
           (PStr "FAILED"));
    vm_compute; reflexivity.
Defined.

(** Processing that never ends, seen for ten turns. *)
Lemma processing_never_ends_witness :
  let w := fresh stuck 0%nat in
  (upload_file stuck 10 "docs/a.pdf" true w).1 = Diverge
  /\ total_sleep (w_trace (upload_file stuck 10 "docs/a.pdf" true w).2)
     = total_sleep (w_trace w) + 2 * Z.of_nat 10.
Proof.
  intros w.
  apply (upload_more.processing_never_ends (P:=stuck) "docs/a.pdf" true w "%PDF"
           (mk_obj "File" [("name", PStr "files/0"); ("state", PStr "PROCESSING")])
           1%nat).
  - vm_compute. reflexivity.
  - vm_compute. reflexivity.
  - vm_compute. reflexivity.
  - vm_compute. reflexivity.
  - exists (PStr "files/0"). vm_compute. reflexivity.
  - vm_compute. reflexivity.
  - intros name r.
    exists (mk_obj "File" [("name", name); ("state", PStr "PROCESSING")]), (Datatypes.S r).
    split; [reflexivity|]. split; [exists name|]; vm_compute; reflexivity.
Defined.

(** One file uploaded into an empty store: one file counted. *)
Lemma upload_file_count_witness :
  let w := fresh prompt 0%nat in
  let w' := (upload_file prompt 5 "docs/a.pdf" true w).2 in
  (agent.get_file_count prompt w').1 =
    Ret (Z.of_nat (size (w_tracked w))
         + (if decide (is_Some (w_tracked w !! fs_resolve (w_fs w) "docs/a.pdf"))
            then 0 else 1)).
Proof.
  intros w w'.
  apply (rest_facts.upload_file_count (P:=prompt) 5 "docs/a.pdf" true w w' first_result).
  vm_compute. reflexivity.
Defined.


(** The shelf: [a.pdf] is uploaded, [locked.pdf] cannot be opened, and
    the agent reports an empty list. *)
Lemma agent_upload_directory_cut_witness :
  let w := on_shelf prompt 0%nat in
  let w0 := with_trace w (w_trace w ++
              [Log INFO ("Found " +:+ pretty (length ["shelf/a.pdf"; "shelf/locked.pdf"])
                         +:+ " PDF file(s) in " +:+ "shelf")]) in
  let w1 := (upload_file prompt 5 "shelf/a.pdf" true w0).2 in
  let w2 := (upload_file prompt 5 "shelf/locked.pdf" true w1).2 in
  agent.upload_directory prompt 5 "shelf" true w =
    (Ret [],
     with_trace w2 (w_trace w2 ++
       [Log ERROR ("Error uploading directory: "
                   +:+ exn_msg (Exn PermissionError "shelf/locked.pdf"))]))
  /\ w_tracked w2 = w_tracked w1 /\ w_remote w2 = w_remote w1.
Proof.
  intros w w0 w1 w2.
  apply (agent_facts.agent_upload_directory_cut (P:=prompt) 5 "shelf" true w w1 w2
           ["shelf/a.pdf"] "shelf/locked.pdf" [] [first_result]
           (Exn PermissionError "shelf/locked.pdf")).
  - vm_compute. reflexivity.
  - vm_compute. reflexivity.
  - exact (batch_cons (P:=prompt) 5 true w0 w1 w1 "shelf/a.pdf" [] (Some first_result) []
             ltac:(vm_compute; reflexivity) (batch_nil 5 true w1)).
  - vm_compute. reflexivity.
Defined.

(** A model that fails five times, asked with three attempts. *)
Lemma agent_ask_exhausted_witness :
  let run := agent.ask (flaky 5) 2 (inr (Some "stores/s1")) "q" true 3 0%nat in
  run.1.1 = "Error: Failed to generate response. " +:+ rag_handler.failure_message 3
  /\ run.1.2 = rag_handler.state_before (flaky 5) "q" (Some "stores/s1") 0%nat (Z.to_nat 3)
  /\ agent.asked run.2 = Z.to_nat 3.
Proof.
  apply (agent_facts.agent_ask_exhausted (flaky 5) 2 (Some "stores/s1") "q" 3 0%nat).
  - lia.
  - intros i Hi. change (Z.to_nat 3) with 3%nat in Hi.
    destruct i as [|[|[|i]]]; [eexists; vm_compute; reflexivity..|lia].
Defined.

(** The second store listed has the configured display name. *)
Lemma initialize_reuses_listed_witness :
  store_init._initialize_file_search_store listing "sysml" blank =
    (inr tt,
     {| store_init.remote := 1%nat; store_init.store := Some our_store;
        store_init.trace := store_init.trace blank ++
          [store_init.Listed;
           store_init.Logged INFO ("Using existing File Search Store: " +:+ "sysml"
                        +:+ " (name: " +:+ py_str (PStr "stores/s1") +:+ ")")] |}).
Proof.
  apply (store_init_facts.initialize_reuses_listed listing "sysml" blank
           [other_store] our_store [] 1%nat (PStr "stores/s1")).
  - reflexivity.
  - reflexivity.
  - constructor; [|constructor]. split; vm_compute; reflexivity.
  - left. vm_compute. reflexivity.
  - vm_compute. reflexivity.
Defined.

(** A service that can neither list nor get and refuses to create. *)
Lemma initialize_degrades_witness :
  (store_init._initialize_file_search_store closed "sysml" blank).1 = inr tt
  /\ store_init.store (store_init._initialize_file_search_store closed "sysml" blank).2
     = None.
Proof.
  destruct (store_init_facts.initialize_degrades closed "sysml" blank) as [Hret Hnone].
  split; [exact Hret|].
  apply (Hnone blank).
  - reflexivity.
  - left. by eexists _, _.
  - by left.
Defined.

(** The upload of [docs/a.pdf], as listed afterwards. *)
Lemma upload_file_listed_witness :
  let w := fresh prompt 0%nat in
  let w' := (upload_file prompt 5 "docs/a.pdf" true w).2 in
  (exists infos info,
      list_files prompt w' = (Ret infos, w') /\ info ∈ infos
      /\ fi_name info = r_name first_result /\ fi_uri info = r_uri first_result)
  /\ (truthy (r_uri first_result) = true ->
      exists uris, get_file_uris prompt w' = (Ret uris, w') /\ r_uri first_result ∈ uris).
Proof.
  intros w w'.
  apply (composition_facts.upload_file_listed (P:=prompt) 5 "docs/a.pdf" true w w'
           first_result).
  vm_compute. reflexivity.
Defined.


(** The directory [docs]: three PDF files, three uploads at most. *)
Lemma upload_directory_bounds_witness :
  let w := fresh prompt 0%nat in
  let run := upload_directory prompt 5 "docs" true w in
  exists rs,
    run.1 = Ret rs
    /\ (length rs <= length (glob_pdf (w_fs w) "docs"))%nat
    /\ exists t, w_trace run.2 = w_trace w ++ t
                 /\ (count_uploads t <= length (glob_pdf (w_fs w) "docs"))%nat.
Proof.
  intros w run. eexists. split; [vm_compute; reflexivity|].
  apply (composition_facts.upload_directory_bounds (P:=prompt) 5 "docs" true w run.2).
  vm_compute. reflexivity.
Defined.

(** [docs/a.pdf] is enumerated and accepted. *)
Lemma glob_pdf_validates_witness :
  joinpath "docs" "a.pdf" ∈ glob_pdf docs "docs"
  /\ validate_pdf_file docs (joinpath "docs" "a.pdf") =
       if String.eqb "a.pdf" ".pdf" then inr WrongType else inl tt.
Proof.
  apply (glob_facts.glob_pdf_validates docs "docs" true
           ["a.pdf"; "b.pdf"; "notes.txt"; "c.pdf"] "a.pdf" true pdf_bytes).
  - reflexivity.
  - apply list_elem_of_here.
  - reflexivity.
  - reflexivity.
  - reflexivity.
  - discriminate.
Defined.

End more_witnesses.
